(** * PosSolver: the GPS position-solving orchestrator of [gps/PosSolver.cpp]

    A shallow embedding of [PosSolverImpl] (the single implementation behind
    the [PosSolver] facade) and of the properties its specification states:
    the per-epoch state machine of [solve], the validity queries, the 48-bit
    tick arithmetic of [dadc_ticks_sec] and the elevation/azimuth projection.

    Conventions.
    - A C++ [double] is a primitive binary64 float; comparisons are the IEEE
      ones (false on NaN), so [altitude > -100 && altitude < 9000] is
      [(-100 <? altitude) && (altitude <? 9000)].
    - [uint64_t] is a [Z] in [0, 2^64); arithmetic wraps modulo [2^64].
    - [int] is a [Z]; the only arithmetic on it, [_ekf_running += (_ekf_running < 4)],
      adds one below 4 only and cannot overflow.
    - A [std::array<T,2>] is a pair: index 0 is the first component.
    - The two numerical solvers ([SinglePointPositionSolver] and
      [EKFPositionSolver]) are external collaborators: they are stateful
      objects reached through an interface (a type class over their state),
      a mutating member function returning its result with the new state.
    - A failing [assert] aborts the program: [solve] returns [None] there. *)

From Stdlib Require Import ZArith List Bool Lia Floats Uint63.
From stdpp Require Import base list.

Local Open Scope Z_scope.

(** ** Machine types *)

Definition double : Type := float.

Definition uint64_t : Type := Z.

Definition wrap64 (z : Z) : Z := z mod 2 ^ 64.

(** [uint64_t + uint64_t], [*] and [-]: modulo [2^64]. *)
Definition add64 (a b : Z) : Z := wrap64 (a + b).
Definition mul64 (a b : Z) : Z := wrap64 (a * b).
Definition sub64 (a b : Z) : Z := wrap64 (a - b).

(** A comparison used as an integer operand ([bool] promoted to 0 or 1). *)
Definition bool_to_int (b : bool) : Z := if b then 1 else 0.

(** The conversion [uint64_t -> double] of the usual arithmetic
    conversions: the nearest binary64 value, ties to even. *)
Definition uint64_to_double (z : Z) : double :=
  SF2Prim (binary_normalize prec emax z 0 false).

(** [M_PI] of <cmath>: the binary64 value nearest to pi. *)
Definition M_PI : double := 0x1.921fb54442d18p+1%float.

(** A positive number that is not infinite: what a nominal frequency in Hz is. *)
Definition positive_finite (x : double) : bool :=
  ((0 <? x) && (x <? infinity))%float.

(** ** std::array<T,2> *)

Definition array2 (T : Type) : Type := (T * T)%type.

Definition at0 {T} (a : array2 T) : T := fst a.
Definition at1 {T} (a : array2 T) : T := snd a.
Definition set0 {T} (a : array2 T) (v : T) : array2 T := (v, snd a).
Definition set1 {T} (a : array2 T) (v : T) : array2 T := (fst a, v).

(** ** TNT arrays *)

Module TNT.

(** Modelled from the spec: the TNT array templates ([Array1D], [Array2D]
    and the helpers [mean], [makeDiag], [inject], [subarray]) are not under
    src/.  A vector is the list of its elements, a matrix its two dimensions
    with the elements in row-major order.  [inject] copies the elements of
    the source into the destination when the dimensions agree and leaves the
    destination as it is otherwise; the spec calls this copying the
    position into the exported state. *)
Definition Array1D : Type := list double.

Record Array2D : Type := mkArray2D {
  dim1 : nat;
  dim2 : nat;
  elems : list double
}.

Definition dim (v : Array1D) : nat := length v.

(** [Array1D<double> v(n, x)] and [Array2D<double> A(m, n, x)]. *)
Definition fill1 (n : nat) (x : double) : Array1D := replicate n x.
Definition fill2 (m n : nat) (x : double) : Array2D :=
  mkArray2D m n (replicate (m * n) x).

(** The default-constructed (null) matrix. *)
Definition null2 : Array2D := mkArray2D 0 0 [].

Definition get2 (A : Array2D) (i j : nat) : double :=
  nth (i * dim2 A + j)%nat (elems A) 0%float.

Definition set2 (A : Array2D) (i j : nat) (x : double) : Array2D :=
  mkArray2D (dim1 A) (dim2 A) (<[(i * dim2 A + j)%nat := x]> (elems A)).

Definition inject (dst src : Array1D) : Array1D :=
  if (dim src =? dim dst)%nat then src else dst.

(** [dst.subarray(i0, i1).inject(src)]: the view of the elements [i0..i1]
    shares the storage of [dst]. *)
Definition inject_sub1 (dst : Array1D) (i0 i1 : nat) (src : Array1D) : Array1D :=
  if ((i0 <=? i1) && (i1 <? dim dst) && (dim src =? i1 - i0 + 1))%nat
  then take i0 dst ++ src ++ drop (S i1) dst
  else dst.

(** [dst.subarray(i0, i1, j0, j1).inject(src)]: the block of the rows
    [i0..i1] and the columns [j0..j1]. *)
Definition inject_sub2 (dst : Array2D) (i0 i1 j0 j1 : nat) (src : Array2D) : Array2D :=
  if ((i0 <=? i1) && (i1 <? dim1 dst) && (j0 <=? j1) && (j1 <? dim2 dst)
      && (dim1 src =? i1 - i0 + 1) && (dim2 src =? j1 - j0 + 1))%nat
  then mkArray2D (dim1 dst) (dim2 dst)
         (imap (fun k x =>
                  let i := (k / dim2 dst)%nat in
                  let j := (k mod dim2 dst)%nat in
                  if ((i0 <=? i) && (i <=? i1) && (j0 <=? j) && (j <=? j1))%nat
                  then get2 src (i - i0) (j - j0) else x)
               (elems dst))
  else dst.

(** The arithmetic mean of the elements. *)
Definition mean (v : Array1D) : double :=
  (fold_left PrimFloat.add v 0 / uint64_to_double (Z.of_nat (dim v)))%float.

(** [v /= s], element by element. *)
Definition div_scalar (v : Array1D) (s : double) : Array1D :=
  map (fun x => (x / s)%float) v.

(** The square matrix with [v] on its diagonal and zero elsewhere. *)
Definition makeDiag (v : Array1D) : Array2D :=
  let n := dim v in
  mkArray2D n n
    (imap (fun k _ => if (k / n =? k mod n)%nat then nth (k / n)%nat v 0%float
                      else 0%float)
          (replicate (n * n) 0%float)).

End TNT.

Definition vec_type : Type := TNT.Array1D.
Definition mat_type : Type := TNT.Array2D.

(** ** Geodetic coordinates and look angles *)

(** Modelled from the spec: [LonLatAlt] and [ElevAzim] are declared in
    headers that are not under src/; the code reads [alt()] of the first and
    writes [elev_deg] and [azim_deg] of the second.  A value-initialised
    [ElevAzim] has both fields zero. *)
Record LonLatAlt : Type := mkLonLatAlt {
  lon : double;
  lat : double;
  alt : double
}.

Definition LonLatAlt_default : LonLatAlt := mkLonLatAlt 0%float 0%float 0%float.

Record ElevAzim : Type := mkElevAzim {
  elev_deg : double;
  azim_deg : double
}.

Definition ElevAzim_default : ElevAzim := mkElevAzim 0%float 0%float.

(** ** The external solvers *)

(** The member functions of [SinglePointPositionSolver] that the
    orchestrator calls, over the solver's state [S]; [Y] is
    [kiwi_yield::wptr].  [IterElevAzim(sv, g)] is given by the sequence of
    calls [g(i_sv, elev_rad, azim_rad)] it makes. *)
Class SinglePointPositionSolver (Y S : Type) : Type := {
  spp_new : Z -> Y -> S;
  spp_Solve : S -> mat_type -> mat_type -> bool * S;
  spp_LLH : S -> LonLatAlt;
  spp_ct_rx : S -> double;
  spp_c : S -> double;
  spp_pos : S -> vec_type;
  spp_cov : S -> mat_type;
  spp_state : S -> vec_type;
  spp_mod_gpsweek : S -> double -> double;
  spp_IterElevAzim : S -> mat_type -> list (nat * double * double)
}.

(** The member functions of [EKFPositionSolver], over its state [E]. *)
Class EKFPositionSolver (Y E : Type) : Type := {
  ekf_new : Y -> E;
  ekf_Reset : E -> vec_type -> mat_type -> E;
  ekf_update : E -> mat_type -> vec_type -> double -> bool * E;
  ekf_LLH : E -> LonLatAlt;
  ekf_ct_rx : E -> double;
  ekf_c : E -> double;
  ekf_state : E -> nat -> double;
  ekf_IterElevAzim : E -> mat_type -> list (nat * double * double)
}.

(** ** PosSolverImpl *)

Section PosSolverImpl.

Context {Y S E : Type}.
Context {SPP : SinglePointPositionSolver Y S} {EKF : EKFPositionSolver Y E}.

(** The data members, in the order of their declaration. *)
Record PosSolverImpl : Type := mkPosSolverImpl {
  _Q : mat_type;
  _uere : double;
  _fOsc : double;
  _spp : S;
  _ekf : E;
  _pos : vec_type;
  _t_rx : double;
  _osc_corr : double;
  _adc_ticks : uint64_t;
  _llh : LonLatAlt;
  _pos_valid : bool;
  _state_spp : array2 bool;
  _ticks_spp : array2 uint64_t;
  _ticks_ekf : array2 uint64_t;
  _ct_rx : array2 double;
  _ekf_running : Z
}.

(** Assignments to one member. *)
Definition set_spp (v : S) (p : PosSolverImpl) : PosSolverImpl :=
  mkPosSolverImpl (_Q p) (_uere p) (_fOsc p) v (_ekf p) (_pos p) (_t_rx p)
    (_osc_corr p) (_adc_ticks p) (_llh p) (_pos_valid p) (_state_spp p)
    (_ticks_spp p) (_ticks_ekf p) (_ct_rx p) (_ekf_running p).

Definition set_ekf (v : E) (p : PosSolverImpl) : PosSolverImpl :=
  mkPosSolverImpl (_Q p) (_uere p) (_fOsc p) (_spp p) v (_pos p) (_t_rx p)
    (_osc_corr p) (_adc_ticks p) (_llh p) (_pos_valid p) (_state_spp p)
    (_ticks_spp p) (_ticks_ekf p) (_ct_rx p) (_ekf_running p).

Definition set_pos (v : vec_type) (p : PosSolverImpl) : PosSolverImpl :=
  mkPosSolverImpl (_Q p) (_uere p) (_fOsc p) (_spp p) (_ekf p) v (_t_rx p)
    (_osc_corr p) (_adc_ticks p) (_llh p) (_pos_valid p) (_state_spp p)
    (_ticks_spp p) (_ticks_ekf p) (_ct_rx p) (_ekf_running p).

Definition set_t_rx (v : double) (p : PosSolverImpl) : PosSolverImpl :=
  mkPosSolverImpl (_Q p) (_uere p) (_fOsc p) (_spp p) (_ekf p) (_pos p) v
    (_osc_corr p) (_adc_ticks p) (_llh p) (_pos_valid p) (_state_spp p)
    (_ticks_spp p) (_ticks_ekf p) (_ct_rx p) (_ekf_running p).

Definition set_osc_corr (v : double) (p : PosSolverImpl) : PosSolverImpl :=
  mkPosSolverImpl (_Q p) (_uere p) (_fOsc p) (_spp p) (_ekf p) (_pos p) (_t_rx p)
    v (_adc_ticks p) (_llh p) (_pos_valid p) (_state_spp p)
    (_ticks_spp p) (_ticks_ekf p) (_ct_rx p) (_ekf_running p).

Definition set_llh (v : LonLatAlt) (p : PosSolverImpl) : PosSolverImpl :=
  mkPosSolverImpl (_Q p) (_uere p) (_fOsc p) (_spp p) (_ekf p) (_pos p) (_t_rx p)
    (_osc_corr p) (_adc_ticks p) v (_pos_valid p) (_state_spp p)
    (_ticks_spp p) (_ticks_ekf p) (_ct_rx p) (_ekf_running p).

Definition set_pos_valid (v : bool) (p : PosSolverImpl) : PosSolverImpl :=
  mkPosSolverImpl (_Q p) (_uere p) (_fOsc p) (_spp p) (_ekf p) (_pos p) (_t_rx p)
    (_osc_corr p) (_adc_ticks p) (_llh p) v (_state_spp p)
    (_ticks_spp p) (_ticks_ekf p) (_ct_rx p) (_ekf_running p).

Definition set_state_spp (v : array2 bool) (p : PosSolverImpl) : PosSolverImpl :=
  mkPosSolverImpl (_Q p) (_uere p) (_fOsc p) (_spp p) (_ekf p) (_pos p) (_t_rx p)
    (_osc_corr p) (_adc_ticks p) (_llh p) (_pos_valid p) v
    (_ticks_spp p) (_ticks_ekf p) (_ct_rx p) (_ekf_running p).

Definition set_ticks_spp (v : array2 uint64_t) (p : PosSolverImpl) : PosSolverImpl :=
  mkPosSolverImpl (_Q p) (_uere p) (_fOsc p) (_spp p) (_ekf p) (_pos p) (_t_rx p)
    (_osc_corr p) (_adc_ticks p) (_llh p) (_pos_valid p) (_state_spp p)
    v (_ticks_ekf p) (_ct_rx p) (_ekf_running p).

Definition set_ticks_ekf (v : array2 uint64_t) (p : PosSolverImpl) : PosSolverImpl :=
  mkPosSolverImpl (_Q p) (_uere p) (_fOsc p) (_spp p) (_ekf p) (_pos p) (_t_rx p)
    (_osc_corr p) (_adc_ticks p) (_llh p) (_pos_valid p) (_state_spp p)
    (_ticks_spp p) v (_ct_rx p) (_ekf_running p).

Definition set_ct_rx (v : array2 double) (p : PosSolverImpl) : PosSolverImpl :=
  mkPosSolverImpl (_Q p) (_uere p) (_fOsc p) (_spp p) (_ekf p) (_pos p) (_t_rx p)
    (_osc_corr p) (_adc_ticks p) (_llh p) (_pos_valid p) (_state_spp p)
    (_ticks_spp p) (_ticks_ekf p) v (_ekf_running p).

Definition set_ekf_running (v : Z) (p : PosSolverImpl) : PosSolverImpl :=
  mkPosSolverImpl (_Q p) (_uere p) (_fOsc p) (_spp p) (_ekf p) (_pos p) (_t_rx p)
    (_osc_corr p) (_adc_ticks p) (_llh p) (_pos_valid p) (_state_spp p)
    (_ticks_spp p) (_ticks_ekf p) (_ct_rx p) v.

(** *** The constructor *)

Definition make (uere fOsc : double) (yield : Y) : PosSolverImpl :=
  {| _Q := TNT.null2;
     _uere := uere;
     _fOsc := fOsc;
     _spp := spp_new 20 yield;
     _ekf := ekf_new yield;
     _pos := TNT.fill1 3 0%float;
     _t_rx := 0%float;
     _osc_corr := (-1)%float;
     _adc_ticks := 0;
     _llh := LonLatAlt_default;
     _pos_valid := false;
     _state_spp := (false, false);
     _ticks_spp := (0, 0);
     _ticks_ekf := (0, 0);
     _ct_rx := (0%float, 0%float);
     _ekf_running := -1 |}.

(** *** The queries *)

Definition pos_valid (self : PosSolverImpl) : bool := _pos_valid self.
Definition spp_valid (self : PosSolverImpl) : bool := at0 (_state_spp self).
Definition ekf_valid (self : PosSolverImpl) : bool := 1 <=? _ekf_running self.
Definition pos (self : PosSolverImpl) : vec_type := _pos self.
Definition t_rx (self : PosSolverImpl) : double := _t_rx self.
Definition osc_corr (self : PosSolverImpl) : double := _osc_corr self.
Definition llh (self : PosSolverImpl) : LonLatAlt := _llh self.

(** *** Tick arithmetic *)

(** [(adc_ticks[0] + (adc_ticks[0] < adc_ticks[1])*(1ULL<<48) - adc_ticks[1])/_fOsc]:
    the numerator is computed in [uint64_t], converted to [double] and
    divided. *)
Definition dadc_ticks (adc_ticks : array2 uint64_t) : uint64_t :=
  sub64 (add64 (at0 adc_ticks)
               (mul64 (bool_to_int (at0 adc_ticks <? at1 adc_ticks))
                      (Z.shiftl 1 48)))
        (at1 adc_ticks).

Definition dadc_ticks_sec (self : PosSolverImpl) (adc_ticks : array2 uint64_t) : double :=
  (uint64_to_double (dadc_ticks adc_ticks) / _fOsc self)%float.

(** *** elev_azim *)

Definition rad_to_deg (x : double) : double := (x / M_PI * 180)%float.

(** The callback [g]: it writes the entry [i_sv] of the captured vector. *)
Definition g (elevAzim : list ElevAzim) (call : nat * double * double) : list ElevAzim :=
  let '(i_sv, elev_rad, azim_rad) := call in
  <[i_sv := mkElevAzim (rad_to_deg elev_rad) (rad_to_deg azim_rad)]> elevAzim.

Definition elev_azim (self : PosSolverImpl) (sv : mat_type) : list ElevAzim :=
  if negb (spp_valid self) && negb (ekf_valid self) then []
  else
    let elevAzim := replicate (TNT.dim2 sv) ElevAzim_default in
    if ekf_valid self
    then fold_left g (ekf_IterElevAzim (_ekf self) sv) elevAzim
    else fold_left g (spp_IterElevAzim (_spp self) sv) elevAzim.

(** *** solve, one block of the source after the other *)

(** "normalize weights and apply UERE scaling". *)
Definition normalize_weights (self : PosSolverImpl) (weight : vec_type) : vec_type :=
  TNT.div_scalar weight (TNT.mean weight * _uere self * _uere self)%float.

(** "save adc_ticks history". *)
Definition save_adc_ticks (adc_ticks : uint64_t) (self : PosSolverImpl) : PosSolverImpl :=
  let self := set_ticks_spp (set1 (_ticks_spp self) (at0 (_ticks_spp self))) self in
  let self := set_ticks_spp (set0 (_ticks_spp self) adc_ticks) self in
  set_ticks_ekf (set0 (_ticks_ekf self) (at0 (_ticks_spp self))) self.

(** "SPP solution" and "update SPP status". *)
Definition spp_solution (sv : mat_type) (weight : vec_type) (self : PosSolverImpl)
  : PosSolverImpl :=
  let '(status, spp) := spp_Solve (_spp self) sv (TNT.makeDiag weight) in
  let self := set_spp spp self in
  let self := set_state_spp (set1 (_state_spp self) (at0 (_state_spp self))) self in
  let altitude := alt (spp_LLH (_spp self)) in
  set_state_spp
    (set0 (_state_spp self)
          (status && (-100 <? altitude)%float && (altitude <? 9000)%float))
    self.

(** "save ct_rx history". *)
Definition save_ct_rx (self : PosSolverImpl) : PosSolverImpl :=
  let self := set_ct_rx (set1 (_ct_rx self) (at0 (_ct_rx self))) self in
  set_ct_rx (set0 (_ct_rx self) (spp_ct_rx (_spp self))) self.

(** "update state". *)
Definition update_state (self : PosSolverImpl) : PosSolverImpl :=
  if at0 (_state_spp self) then
    let self := set_llh (spp_LLH (_spp self)) self in
    let self := set_t_rx (spp_ct_rx (_spp self) / spp_c (_spp self))%float self in
    let self := set_pos (TNT.inject (_pos self) (spp_pos (_spp self))) self in
    set_pos_valid true self
  else self.

(** The covariance and the state the filter is reset with. *)
Definition ekf_cov (self : PosSolverImpl) : mat_type :=
  let ekf_cov := TNT.fill2 5 5 0%float in
  let ekf_cov := TNT.inject_sub2 ekf_cov 0 3 0 3 (spp_cov (_spp self)) in
  TNT.set2 ekf_cov 4 4 1%float.

Definition ekf_state0 (self : PosSolverImpl) : vec_type :=
  let ekf_state := TNT.fill1 5 0%float in
  let ekf_state := TNT.inject_sub1 ekf_state 0 3 (spp_state (_spp self)) in
  <[4%nat := (_osc_corr self * ekf_c (_ekf self))%float]> ekf_state.

(** The body of [if (_ekf_running == -1)]: the bootstrap of the filter. *)
Definition bootstrap (self : PosSolverImpl) : PosSolverImpl :=
  let self := set_ekf (ekf_Reset (_ekf self) (ekf_state0 self) (ekf_cov self)) self in
  let self := set_ticks_ekf (set1 (_ticks_ekf self) (at0 (_ticks_ekf self))) self in
  set_ekf_running 0 self.

(** "when the last two SPP solutions are valid, compute osc_corr and start
    EFK tracking". *)
Definition start_tracking (self : PosSolverImpl) : PosSolverImpl :=
  if at0 (_state_spp self) && at1 (_state_spp self) then
    let dt_adc_sec := dadc_ticks_sec self (_ticks_spp self) in
    let self :=
      set_osc_corr
        (spp_mod_gpsweek (_spp self) (at0 (_ct_rx self) - at1 (_ct_rx self))
         / spp_c (_spp self) / dt_adc_sec)%float
        self in
    if _ekf_running self =? -1 then bootstrap self else self
  else self.

(** The state when [if (_ekf_running >= 0)] is reached. *)
Definition spp_epoch (sv : mat_type) (weight : vec_type) (adc_ticks : uint64_t)
    (self : PosSolverImpl) : PosSolverImpl :=
  start_tracking
    (update_state (save_ct_rx (spp_solution sv weight (save_adc_ticks adc_ticks self)))).

(** The last block, [if (_ekf_running >= 0) { ... }]. *)
Definition ekf_epoch (sv : mat_type) (weight : vec_type) (self : PosSolverImpl)
  : PosSolverImpl :=
  if 0 <=? _ekf_running self then
    let dt_adc_sec := dadc_ticks_sec self (_ticks_ekf self) in
    let '(ok, ekf) := ekf_update (_ekf self) sv weight dt_adc_sec in
    let self := set_ekf ekf self in
    if ok then
      let self := set_ticks_ekf (set1 (_ticks_ekf self) (at0 (_ticks_ekf self))) self in
      let self :=
        set_ekf_running (_ekf_running self + bool_to_int (_ekf_running self <? 4)) self in
      let self := set_llh (ekf_LLH (_ekf self)) self in
      let self := set_t_rx (ekf_ct_rx (_ekf self) / ekf_c (_ekf self))%float self in
      let self := set_osc_corr (ekf_state (_ekf self) 4 / ekf_c (_ekf self))%float self in
      set_pos (TNT.inject (_pos self) (spp_pos (_spp self))) self
    else set_ekf_running (-1) self
  else self.

(** [solve(sv, weight, adc_ticks)]: [None] is a failed [assert], otherwise
    the returned value and the object afterwards. *)
Definition solve (sv : mat_type) (weight : vec_type) (adc_ticks : uint64_t)
    (self : PosSolverImpl) : option (bool * PosSolverImpl) :=
  if negb (TNT.dim2 sv =? TNT.dim weight)%nat then None
  else
    let nsv := TNT.dim2 sv in
    if (nsv =? 0)%nat then Some (false, self)
    else if negb (TNT.dim1 sv =? 4)%nat then None
    else
      let weight := normalize_weights self weight in
      Some (true, ekf_epoch sv weight (spp_epoch sv weight adc_ticks self)).

(** *** What an epoch does, as the properties below name it *)

(** The point solve of the epoch: what [_spp.Solve] returns, and the solver
    afterwards. *)
Definition solve_status (sv : mat_type) (weight : vec_type) (self : PosSolverImpl) : bool :=
  (spp_Solve (_spp self) sv (TNT.makeDiag weight)).1.

Definition solved_spp (sv : mat_type) (weight : vec_type) (self : PosSolverImpl) : S :=
  (spp_Solve (_spp self) sv (TNT.makeDiag weight)).2.

(** The epoch's point solution passes the gate: the solve succeeded and the
    altitude is plausible. *)
Definition accepted (sv : mat_type) (weight : vec_type) (self : PosSolverImpl) : bool :=
  let altitude := alt (spp_LLH (solved_spp sv weight self)) in
  solve_status sv weight self && (-100 <? altitude)%float && (altitude <? 9000)%float.

(** The epoch bootstraps the filter: this point solution and the previous
    one are valid and the filter is not running. *)
Definition bootstraps (sv : mat_type) (weight : vec_type) (self : PosSolverImpl) : bool :=
  accepted sv weight self && spp_valid self && (_ekf_running self =? -1).

(** The call [_ekf.update(sv, weight, dt_adc_sec)] of the last block, on the
    object as it is when the block is entered. *)
Definition update_call (sv : mat_type) (weight : vec_type) (mid : PosSolverImpl) : bool * E :=
  ekf_update (_ekf mid) sv weight (dadc_ticks_sec mid (_ticks_ekf mid)).

(** The filter update of the epoch is made and succeeds. *)
Definition update_succeeds (sv : mat_type) (weight : vec_type) (mid : PosSolverImpl) : bool :=
  (0 <=? _ekf_running mid) && (update_call sv weight mid).1.

(** The filter update of the epoch is made and fails. *)
Definition update_fails (sv : mat_type) (weight : vec_type) (mid : PosSolverImpl) : bool :=
  (0 <=? _ekf_running mid) && negb (update_call sv weight mid).1.

(** *** What elev_azim does, as the properties below name it *)

(** The look angles in degrees of one column. *)
Definition to_degrees (rad : double * double) : ElevAzim :=
  mkElevAzim (rad_to_deg rad.1) (rad_to_deg rad.2).

(** The calls [g(0, ..), g(1, ..), ...]: one per column, in their order. *)
Definition one_call_per_column (rads : list (double * double))
  : list (nat * double * double) :=
  imap (fun i rad => (i, rad.1, rad.2)) rads.

(** The calls of the solver that [elev_azim] trusts. *)
Definition trusted_calls (self : PosSolverImpl) (sv : mat_type) : list (nat * double * double) :=
  if ekf_valid self then ekf_IterElevAzim (_ekf self) sv
  else spp_IterElevAzim (_spp self) sv.

(** The domain of the confidence counter. *)
Definition confidence_ok (self : PosSolverImpl) : Prop := -1 <= _ekf_running self <= 4.

End PosSolverImpl.

Arguments PosSolverImpl : clear implicits.

(** ** A sequence of epochs *)

(** One epoch as the caller hands it to [solve]. *)
Record epoch : Type := mkEpoch {
  ep_sv : mat_type;
  ep_weight : vec_type;
  ep_ticks : uint64_t
}.

(** The calls [solve(e1); solve(e2); ...] on one object: the object after
    the last call, [None] when an [assert] fails on the way. *)
Fixpoint solve_all {Y S E} `{SinglePointPositionSolver Y S} `{EKFPositionSolver Y E}
    (epochs : list epoch) (self : PosSolverImpl S E) : option (PosSolverImpl S E) :=
  match epochs with
  | [] => Some self
  | e :: rest =>
      match solve (ep_sv e) (ep_weight e) (ep_ticks e) self with
      | Some (_, self) => solve_all rest self
      | None => None
      end
  end.

(** ** More names for what an epoch does *)

(** The covariance and the state of the bootstrap, from what the point
    solver reports: the first is [ekf_cov], the second [ekf_state0] with the
    drift [_osc_corr * _ekf.c()]. *)
Definition bootstrap_cov (cov : mat_type) : mat_type :=
  TNT.set2 (TNT.inject_sub2 (TNT.fill2 5 5 0%float) 0 3 0 3 cov) 4 4 1%float.

Definition bootstrap_state (state : vec_type) (drift : double) : vec_type :=
  <[4%nat := drift]> (TNT.inject_sub1 (TNT.fill1 5 0%float) 0 3 state).

(** The oscillator correction that two consecutive fixes give: the
    clock-bias difference, brought into one GPS week, over the speed of light
    and the elapsed time. *)
Definition osc_corr_of_fixes {Y S} `{SinglePointPositionSolver Y S}
    (spp : S) (ct_rx_now ct_rx_before dt_adc_sec : double) : double :=
  (spp_mod_gpsweek spp (ct_rx_now - ct_rx_before) / spp_c spp / dt_adc_sec)%float.

(** Every epoch of the sequence is processed and leaves the filter valid:
    its update was made and succeeded. *)
Fixpoint keeps_tracking {Y S E} `{SinglePointPositionSolver Y S} `{EKFPositionSolver Y E}
    (epochs : list epoch) (self : PosSolverImpl S E) : bool :=
  match epochs with
  | [] => true
  | e :: rest =>
      match solve (ep_sv e) (ep_weight e) (ep_ticks e) self with
      | Some (true, self) => ekf_valid self && keeps_tracking rest self
      | _ => false
      end
  end.

(** Whatever is valid, or was at the previous epoch, or runs, has set the
    sticky flag. *)
Definition validity_sets_pos_valid {S E} (self : PosSolverImpl S E) : Prop :=
  (at0 (_state_spp self) = true -> _pos_valid self = true)
  /\ (at1 (_state_spp self) = true -> _pos_valid self = true)
  /\ (_ekf_running self <> -1 -> _pos_valid self = true).

(** The last call [g(i, elev_rad, azim_rad)] for the column [i] among the
    calls of an iteration, if there is one. *)
Definition last_call (i : nat) (calls : list (nat * double * double))
  : option (double * double) :=
  fold_left (fun found call => if (call.1.1 =? i)%nat then Some (call.1.2, call.2) else found)
            calls None.

(** ** Scripted solvers *)

(** Two small solvers to run the orchestrator on concrete epochs.  The
    script is the first satellite column of [sv]: row 0 is the altitude the
    point solver reports, row 1 its [ct_rx], row 2 is positive when the point
    solve succeeds, row 3 is positive when the filter update succeeds. *)
Module Scripted.

Record spp : Type := mkSpp {
  spp_alt : double;
  spp_ct : double
}.

Record ekf : Type := mkEkf {
  ekf_x : vec_type;
  ekf_dt : double;
  ekf_updates : nat
}.

Definition look_angles (sv : mat_type) : list (nat * double * double) :=
  map (fun i => (i, TNT.get2 sv 0 i, TNT.get2 sv 1 i)) (seq 0 (TNT.dim2 sv)).

#[export] Instance spp_ops : SinglePointPositionSolver unit spp := {|
  spp_new := fun _ _ => mkSpp 0%float 0%float;
  spp_Solve := fun _ sv _ =>
    ((0 <? TNT.get2 sv 2 0)%float, mkSpp (TNT.get2 sv 0 0) (TNT.get2 sv 1 0));
  spp_LLH := fun s => mkLonLatAlt 0%float 0%float (spp_alt s);
  spp_ct_rx := spp_ct;
  spp_c := fun _ => 299792458%float;
  spp_pos := fun s => [spp_alt s; spp_ct s; 1%float];
  spp_cov := fun _ => TNT.fill2 4 4 2%float;
  spp_state := fun s => [spp_alt s; spp_ct s; 1%float; spp_ct s];
  spp_mod_gpsweek := fun _ x => x;
  spp_IterElevAzim := fun _ sv => look_angles sv
|}.

#[export] Instance ekf_ops : EKFPositionSolver unit ekf := {|
  ekf_new := fun _ => mkEkf [] 0%float 0;
  ekf_Reset := fun _ x _ => mkEkf x (-1)%float 0;
  ekf_update := fun e sv _ dt =>
    ((0 <? TNT.get2 sv 3 0)%float, mkEkf (ekf_x e) dt (Datatypes.S (ekf_updates e)));
  ekf_LLH := fun e => mkLonLatAlt 1%float 1%float (nth 0 (ekf_x e) 0%float);
  ekf_ct_rx := fun e => nth 3 (ekf_x e) 0%float;
  ekf_c := fun _ => 299792458%float;
  ekf_state := fun e i => nth i (ekf_x e) 0%float;
  ekf_IterElevAzim := fun _ sv => map (fun c => (c.1.1, c.1.2, c.1.2)) (look_angles sv)
|}.

(** A batch of one satellite with the given script. *)
Definition batch (altitude ct ok_spp ok_ekf : double) : mat_type :=
  TNT.mkArray2D 4 1 [altitude; ct; ok_spp; ok_ekf].

Definition fresh : PosSolverImpl spp ekf := make 6%float 66666600%float tt.

(** A plausible fix with a successful filter update, a plausible fix with a
    failing filter update, and a failed point solve. *)
Definition good (ticks : uint64_t) : epoch :=
  mkEpoch (batch 120%float 30%float 1%float 1%float) [1%float] ticks.
Definition good_diverging (ticks : uint64_t) : epoch :=
  mkEpoch (batch 120%float 30%float 1%float (-1)%float) [1%float] ticks.
Definition bad (ticks : uint64_t) : epoch :=
  mkEpoch (batch 120%float 30%float (-1)%float 1%float) [1%float] ticks.

(** The object after a sequence of epochs on a fresh one. *)
Definition after (epochs : list epoch) : PosSolverImpl spp ekf :=
  match solve_all epochs fresh with
  | Some self => self
  | None => fresh
  end.

(** The runs used below: one plausible fix, a second one (the filter
    bootstraps and its update succeeds), a third one on which the filter
    diverges; and one and two failed point solves. *)
Definition first_fix : PosSolverImpl spp ekf := after [good 5].
Definition tracking : PosSolverImpl spp ekf := after [good 5; good 9].
Definition diverged : PosSolverImpl spp ekf :=
  after [good 5; good 9; good_diverging 12].
Definition no_fix : PosSolverImpl spp ekf := after [bad 5].
Definition no_fix_twice : PosSolverImpl spp ekf := after [bad 5; bad 9].

Definition sv_good : mat_type := ep_sv (good 0).
Definition sv_diverging : mat_type := ep_sv (good_diverging 0).
Definition sv_bad : mat_type := ep_sv (bad 0).
Definition unit_weight : vec_type := [1%float].

(** Further runs: the filter tracking for six epochs, a failed point solve
    while the filter tracks, and a failed point solve after a first fix. *)
Definition six_good : list epoch :=
  [good 9; good 12; good 15; good 18; good 21; good 24].
Definition tracking_long : PosSolverImpl spp ekf := after (good 5 :: six_good).
Definition tracking_without_fix : PosSolverImpl spp ekf :=
  after [good 5; good 9; bad 12].
Definition fix_then_none : PosSolverImpl spp ekf := after [good 5; bad 9].
Definition recovered : PosSolverImpl spp ekf :=
  after [good 5; good 9; good_diverging 12; good 15].

Definition tracking_on : PosSolverImpl spp ekf :=
  after [good 5; good 9; good 12].
Definition fixes_without_filter : PosSolverImpl spp ekf :=
  after [good 5; good_diverging 9].

(** Objects with a nominal frequency that is not a positive finite
    number: zero, negative, infinite. *)
Definition fresh_zero_fOsc : PosSolverImpl spp ekf := make 6%float 0%float tt.
Definition first_fix_zero_fOsc : PosSolverImpl spp ekf :=
  match solve_all [good 5] fresh_zero_fOsc with
  | Some self => self
  | None => fresh_zero_fOsc
  end.
Definition tracking_zero_fOsc : PosSolverImpl spp ekf :=
  match solve_all [good 5; good 9] fresh_zero_fOsc with
  | Some self => self
  | None => fresh_zero_fOsc
  end.
Definition fresh_negative_fOsc : PosSolverImpl spp ekf :=
  make 6%float (-66666600)%float tt.
Definition fresh_infinite_fOsc : PosSolverImpl spp ekf :=
  make 6%float infinity tt.

(** Two tick values around a wraparound of the 48-bit counter. *)
Definition before_wrap : uint64_t := 2 ^ 48 - 3.
Definition after_wrap : uint64_t := 5.

(** A geometry without satellites, and one with three rows only. *)
Definition sv_empty : mat_type := TNT.mkArray2D 4 0 [].
Definition sv_three_rows : mat_type := TNT.mkArray2D 3 1 [120; 30; 1]%float.

(** A geometry of two satellites and the look angles, in radians, that the
    scripted point solver reports for it. *)
Definition sv_two : mat_type :=
  TNT.mkArray2D 4 2 [1; 2; 3; 4; 5; 6; 7; 8]%float.
Definition rads_two : list (double * double) := [(1, 3); (2, 4)]%float.

End Scripted.


(** * Binary64 facts *)

Lemma uint64_to_double_0 : uint64_to_double 0 = 0%float.
Proof. reflexivity. Qed.

(** A float above zero is a positive finite number or plus infinity. *)
Lemma positive_cases (x : double) :
  (0 <? x)%float = true ->
  Prim2SF x = S754_infinity false
  \/ exists m e, Prim2SF x = S754_finite false m e.
Proof.
  rewrite FloatAxioms.ltb_spec. change (Prim2SF 0) with (S754_zero false).
  destruct (Prim2SF x) as [s| [] | |[] m e]; cbn; try discriminate; eauto.
Qed.

Lemma negative_cases (x : double) :
  (x <? 0)%float = true ->
  Prim2SF x = S754_infinity true
  \/ exists m e, Prim2SF x = S754_finite true m e.
Proof.
  rewrite FloatAxioms.ltb_spec. change (Prim2SF 0) with (S754_zero false).
  destruct (Prim2SF x) as [s| [] | |[] m e]; cbn; try discriminate; eauto.
Qed.

(** Zero divided by a positive number is (plus) zero. *)
Lemma zero_div_positive (x : double) :
  (0 <? x)%float = true -> (0 / x)%float = 0%float.
Proof.
  intros Hx. apply Prim2SF_inj. rewrite FloatAxioms.div_spec.
  change (Prim2SF 0) with (S754_zero false).
  destruct (positive_cases x Hx) as [->|(m & e & ->)]; reflexivity.
Qed.

(** Zero divided by a number other than zero compares equal to zero. *)
Lemma zero_div_nonzero (x : double) :
  ((x <? 0) || (0 <? x))%float = true -> (0 / x =? 0)%float = true.
Proof.
  intros Hx. rewrite FloatAxioms.eqb_spec, FloatAxioms.div_spec.
  change (Prim2SF 0) with (S754_zero false).
  apply orb_true_iff in Hx as [Hx|Hx].
  - destruct (negative_cases x Hx) as [->|(m & e & ->)]; reflexivity.
  - destruct (positive_cases x Hx) as [->|(m & e & ->)]; reflexivity.
Qed.

Lemma dadc_ticks_same (t : uint64_t) : dadc_ticks (t, t) = 0.
Proof.
  unfold dadc_ticks, sub64, add64, mul64, wrap64, at0, at1. cbn [fst snd].
  rewrite Z.ltb_irrefl. cbn [bool_to_int]. rewrite Z.mul_0_l, Zmod_0_l, Z.add_0_r.
  rewrite Zminus_mod_idemp_l, Z.sub_diag. reflexivity.
Qed.

(** * Properties of one epoch *)

(** Symbolic execution of the blocks of [solve].  The object is taken apart
    first, so that every projection meets a constructor; the blocks are then
    run one after the other, innermost first, and every test that does not
    compute is split as soon as it is reached. *)
Ltac fields :=
  cbv beta iota zeta delta [set_spp set_ekf set_pos set_t_rx set_osc_corr
    set_llh set_pos_valid set_state_spp set_ticks_spp set_ticks_ekf set_ct_rx
    set_ekf_running _Q _uere _fOsc _spp _ekf _pos _t_rx _osc_corr _adc_ticks
    _llh _pos_valid _state_spp _ticks_spp _ticks_ekf _ct_rx _ekf_running
    at0 at1 set0 set1];
  cbn [fst snd].

Ltac split_tests :=
  repeat match goal with
         | |- context [if ?b then _ else _] => destruct b eqn:?; fields
         end.

(** The cases where two tests disagree. *)
Ltac absurd_tests :=
  try reflexivity;
  try (cbn [andb orb negb] in *;
       rewrite ?andb_true_r, ?andb_false_r, ?orb_true_r, ?orb_false_r in *;
       congruence).

Ltac spp_blocks self :=
  destruct self;
  unfold spp_epoch, bootstraps, accepted, solve_status, solved_spp,
    spp_valid, ekf_valid, pos_valid;
  unfold save_adc_ticks; fields;
  unfold spp_solution; fields;
  match goal with
  | |- context [spp_Solve ?s ?a ?b] =>
      let st := fresh "status" in
      let sp := fresh "spp'" in
      destruct (spp_Solve s a b) as [st sp]; fields
  end;
  unfold save_ct_rx; fields;
  unfold update_state; fields; split_tests;
  unfold start_tracking; fields; split_tests;
  unfold bootstrap, ekf_state0, ekf_cov, dadc_ticks_sec; fields;
  absurd_tests.

Ltac ekf_blocks mid :=
  destruct mid;
  unfold ekf_epoch, update_succeeds, update_fails, update_call, ekf_valid,
    dadc_ticks_sec, pos, llh, t_rx, osc_corr;
  fields;
  repeat match goal with
         | |- context [ekf_update ?e ?a ?b ?c] =>
             let ok := fresh "ok" in
             let e' := fresh "ekf'" in
             destruct (ekf_update e a b c) as [ok e']; fields
         | |- context [if ?b then _ else _] => destruct b eqn:?; fields
         end;
  absurd_tests.

Section Epoch.

Context {Y S E : Type}.
Context {SPP : SinglePointPositionSolver Y S} {EKF : EKFPositionSolver Y E}.

Implicit Types self mid : PosSolverImpl S E.
Implicit Types (sv : mat_type) (weight : vec_type) (adc_ticks : uint64_t).

(** *** The blocks up to the bootstrap *)

Lemma spp_epoch_state_spp sv weight adc_ticks self :
  _state_spp (spp_epoch sv weight adc_ticks self)
  = (accepted sv weight self, at0 (_state_spp self)).
Proof. spp_blocks self; reflexivity. Qed.

Lemma spp_epoch_spp sv weight adc_ticks self :
  _spp (spp_epoch sv weight adc_ticks self) = solved_spp sv weight self.
Proof. spp_blocks self; reflexivity. Qed.

Lemma spp_epoch_ticks_spp sv weight adc_ticks self :
  _ticks_spp (spp_epoch sv weight adc_ticks self)
  = (adc_ticks, at0 (_ticks_spp self)).
Proof. spp_blocks self; reflexivity. Qed.

Lemma spp_epoch_ct_rx sv weight adc_ticks self :
  _ct_rx (spp_epoch sv weight adc_ticks self)
  = (spp_ct_rx (solved_spp sv weight self), at0 (_ct_rx self)).
Proof. spp_blocks self; reflexivity. Qed.

Lemma spp_epoch_pos_valid sv weight adc_ticks self :
  _pos_valid (spp_epoch sv weight adc_ticks self)
  = _pos_valid self || accepted sv weight self.
Proof.
  spp_blocks self; rewrite ?orb_true_r, ?orb_false_r; try reflexivity; congruence.
Qed.

Lemma spp_epoch_fOsc sv weight adc_ticks self :
  _fOsc (spp_epoch sv weight adc_ticks self) = _fOsc self.
Proof. spp_blocks self; reflexivity. Qed.

Lemma spp_epoch_pos sv weight adc_ticks self :
  _pos (spp_epoch sv weight adc_ticks self)
  = if accepted sv weight self
    then TNT.inject (_pos self) (spp_pos (solved_spp sv weight self))
    else _pos self.
Proof. spp_blocks self; try reflexivity; congruence. Qed.

Lemma spp_epoch_ticks_ekf sv weight adc_ticks self :
  _ticks_ekf (spp_epoch sv weight adc_ticks self)
  = (adc_ticks,
     if bootstraps sv weight self then adc_ticks else at1 (_ticks_ekf self)).
Proof.
  spp_blocks self; try reflexivity.
Qed.

Lemma spp_epoch_ekf_running sv weight adc_ticks self :
  _ekf_running (spp_epoch sv weight adc_ticks self)
  = if bootstraps sv weight self then 0 else _ekf_running self.
Proof.
  spp_blocks self; try reflexivity.
Qed.

(** *** The filter block *)

Lemma ekf_epoch_ekf_running sv weight mid :
  _ekf_running (ekf_epoch sv weight mid)
  = if update_succeeds sv weight mid
    then _ekf_running mid + bool_to_int (_ekf_running mid <? 4)
    else if update_fails sv weight mid then -1 else _ekf_running mid.
Proof. ekf_blocks mid; try reflexivity; try discriminate. Qed.

Lemma ekf_epoch_ticks_ekf sv weight mid :
  _ticks_ekf (ekf_epoch sv weight mid)
  = if update_succeeds sv weight mid
    then (at0 (_ticks_ekf mid), at0 (_ticks_ekf mid))
    else _ticks_ekf mid.
Proof. ekf_blocks mid; try reflexivity; try discriminate. Qed.

Lemma ekf_epoch_untouched sv weight mid :
  _state_spp (ekf_epoch sv weight mid) = _state_spp mid
  /\ _ticks_spp (ekf_epoch sv weight mid) = _ticks_spp mid
  /\ _ct_rx (ekf_epoch sv weight mid) = _ct_rx mid
  /\ _pos_valid (ekf_epoch sv weight mid) = _pos_valid mid
  /\ _spp (ekf_epoch sv weight mid) = _spp mid
  /\ _fOsc (ekf_epoch sv weight mid) = _fOsc mid.
Proof. ekf_blocks mid; repeat split. Qed.

Lemma ekf_epoch_ekf sv weight mid :
  _ekf (ekf_epoch sv weight mid)
  = if 0 <=? _ekf_running mid then (update_call sv weight mid).2 else _ekf mid.
Proof. ekf_blocks mid; try reflexivity; try discriminate. Qed.

Lemma ekf_epoch_exports sv weight mid :
  update_succeeds sv weight mid = true ->
  let self' := ekf_epoch sv weight mid in
  _llh self' = ekf_LLH (_ekf self')
  /\ _t_rx self' = (ekf_ct_rx (_ekf self') / ekf_c (_ekf self'))%float
  /\ _osc_corr self' = (ekf_state (_ekf self') 4 / ekf_c (_ekf self'))%float
  /\ _pos self' = TNT.inject (_pos mid) (spp_pos (_spp mid)).
Proof. ekf_blocks mid; intros; try discriminate; repeat split. Qed.

Lemma ekf_epoch_no_exports sv weight mid :
  update_succeeds sv weight mid = false ->
  let self' := ekf_epoch sv weight mid in
  _llh self' = _llh mid /\ _t_rx self' = _t_rx mid
  /\ _osc_corr self' = _osc_corr mid /\ _pos self' = _pos mid.
Proof. ekf_blocks mid; intros; try discriminate; repeat split. Qed.

(** The facts below are stated for an arbitrary object at the entry of the
    filter block, so that their proofs never evaluate the earlier blocks. *)
Lemma update_succeeds_true sv weight mid :
  update_succeeds sv weight mid = true ->
  (0 <=? _ekf_running mid) = true /\ (update_call sv weight mid).1 = true.
Proof. unfold update_succeeds. intros H. now apply andb_true_iff in H. Qed.

Lemma update_fails_not_succeeds sv weight mid :
  update_fails sv weight mid = true -> update_succeeds sv weight mid = false.
Proof.
  unfold update_succeeds, update_fails.
  destruct (0 <=? _ekf_running mid), (update_call sv weight mid).1; auto.
Qed.

Lemma update_outcome_bootstrapped sv weight mid :
  _ekf_running mid = 0 ->
  update_succeeds sv weight mid = (update_call sv weight mid).1
  /\ update_fails sv weight mid = negb (update_call sv weight mid).1.
Proof. unfold update_succeeds, update_fails. intros ->. split; reflexivity. Qed.

Lemma update_call_eq sv weight mid :
  update_call sv weight mid
  = ekf_update (_ekf mid) sv weight
      (uint64_to_double (dadc_ticks (_ticks_ekf mid)) / _fOsc mid)%float.
Proof. reflexivity. Qed.

Lemma ekf_epoch_ekf_made sv weight mid :
  (0 <=? _ekf_running mid) = true ->
  _ekf (ekf_epoch sv weight mid) = (update_call sv weight mid).2.
Proof. intros Hr. now rewrite ekf_epoch_ekf, Hr. Qed.

Lemma ekf_epoch_running_success sv weight mid :
  confidence_ok mid ->
  update_succeeds sv weight mid = true ->
  _ekf_running (ekf_epoch sv weight mid) = Z.min (_ekf_running mid + 1) 4.
Proof.
  unfold confidence_ok. intros Hmid Hok. rewrite ekf_epoch_ekf_running, Hok.
  unfold bool_to_int. destruct (Z.ltb_spec (_ekf_running mid) 4); lia.
Qed.

Lemma ekf_epoch_running_failure sv weight mid :
  update_fails sv weight mid = true ->
  _ekf_running (ekf_epoch sv weight mid) = -1.
Proof.
  intros Hfail. rewrite ekf_epoch_ekf_running, Hfail.
  now rewrite (update_fails_not_succeeds _ _ _ Hfail).
Qed.

Lemma ekf_epoch_running_bootstrapped sv weight mid :
  _ekf_running mid = 0 ->
  _ekf_running (ekf_epoch sv weight mid)
  = (if (update_call sv weight mid).1 then 1 else -1)
  /\ ekf_valid (ekf_epoch sv weight mid) = (update_call sv weight mid).1.
Proof.
  intros Hmid. unfold ekf_valid. rewrite ekf_epoch_ekf_running.
  destruct (update_outcome_bootstrapped sv weight mid Hmid) as [-> ->].
  rewrite Hmid. destruct (update_call sv weight mid).1; split; reflexivity.
Qed.

Lemma ekf_epoch_not_running sv weight mid :
  _ekf_running mid = -1 -> _ekf_running (ekf_epoch sv weight mid) = -1.
Proof.
  intros Hmid. rewrite ekf_epoch_ekf_running.
  unfold update_succeeds, update_fails. now rewrite Hmid.
Qed.

Lemma make_not_running uere fOsc (yield : Y) sv weight :
  bootstraps sv weight (make uere fOsc yield) = false
  /\ _ekf_running (make uere fOsc yield) = -1
  /\ pos_valid (make uere fOsc yield) = false.
Proof. unfold bootstraps. now rewrite andb_false_r. Qed.

Lemma bootstraps_true sv weight self :
  accepted sv weight self = true -> spp_valid self = true ->
  _ekf_running self = -1 -> bootstraps sv weight self = true.
Proof. unfold bootstraps. now intros -> -> ->. Qed.


Lemma dadc_ticks_sec_same (t : uint64_t) self :
  dadc_ticks_sec self (t, t) = (0 / _fOsc self)%float.
Proof. unfold dadc_ticks_sec. now rewrite dadc_ticks_same, uint64_to_double_0. Qed.

(** *** solve *)

Lemma solve_nonempty sv weight adc_ticks self self' :
  solve sv weight adc_ticks self = Some (true, self') ->
  let weight' := normalize_weights self weight in
  self' = ekf_epoch sv weight' (spp_epoch sv weight' adc_ticks self)
  /\ TNT.dim2 sv = TNT.dim weight /\ TNT.dim2 sv <> 0%nat /\ TNT.dim1 sv = 4%nat.
Proof.
  unfold solve.
  destruct (TNT.dim2 sv =? TNT.dim weight)%nat eqn:Hdim; [|discriminate].
  destruct (TNT.dim2 sv =? 0)%nat eqn:Hnsv; [discriminate|].
  destruct (TNT.dim1 sv =? 4)%nat eqn:Hrows; [|discriminate].
  cbn. intros [= <-].
  apply Nat.eqb_eq in Hdim, Hrows. apply Nat.eqb_neq in Hnsv. auto.
Qed.

Lemma solve_empty sv weight adc_ticks self self' :
  solve sv weight adc_ticks self = Some (false, self') ->
  self' = self /\ TNT.dim2 sv = 0%nat.
Proof.
  unfold solve.
  destruct (TNT.dim2 sv =? TNT.dim weight)%nat eqn:Hdim; [|discriminate].
  destruct (TNT.dim2 sv =? 0)%nat eqn:Hnsv.
  - cbn. intros [= <-]. apply Nat.eqb_eq in Hnsv. auto.
  - destruct (TNT.dim1 sv =? 4)%nat; discriminate.
Qed.

Lemma solve_total sv weight adc_ticks self :
  TNT.dim2 sv = TNT.dim weight ->
  TNT.dim2 sv <> 0%nat ->
  TNT.dim1 sv = 4%nat ->
  let weight' := normalize_weights self weight in
  solve sv weight adc_ticks self
  = Some (true, ekf_epoch sv weight' (spp_epoch sv weight' adc_ticks self)).
Proof.
  intros Hdim Hnsv Hrows. unfold solve.
  apply Nat.eqb_eq in Hdim, Hrows. apply Nat.eqb_neq in Hnsv.
  rewrite Hdim, Hnsv, Hrows. reflexivity.
Qed.

Lemma inject_inject (dst src : vec_type) :
  TNT.inject (TNT.inject dst src) src = TNT.inject dst src.
Proof.
  unfold TNT.inject. destruct (TNT.dim src =? TNT.dim dst)%nat eqn:Hd.
  - now rewrite Nat.eqb_refl.
  - now rewrite Hd.
Qed.

Lemma inject_if (b : bool) (dst src : vec_type) :
  TNT.inject (if b then TNT.inject dst src else dst) src = TNT.inject dst src.
Proof. destruct b; auto using inject_inject. Qed.

Lemma inject_same_dim (dst src : vec_type) :
  TNT.dim src = TNT.dim dst -> TNT.inject dst src = src.
Proof. unfold TNT.inject. intros ->. now rewrite Nat.eqb_refl. Qed.

(** The filter update of this call succeeded exactly when the filter is
    valid afterwards. *)
Lemma update_succeeds_ekf_valid sv weight mid :
  ekf_valid (ekf_epoch sv weight mid) = update_succeeds sv weight mid.
Proof.
  unfold ekf_valid. rewrite ekf_epoch_ekf_running.
  unfold update_succeeds, update_fails, bool_to_int.
  destruct (Z.leb_spec 0 (_ekf_running mid)) as [Hr|Hr];
    destruct (update_call sv weight mid).1; cbn [andb negb];
    try destruct (Z.ltb_spec (_ekf_running mid) 4);
    (apply Z.leb_le || apply Z.leb_gt); lia.
Qed.

(** *** The claims about one epoch *)

(** C9. [solve] returns false only when the batch is empty: when the weight
    count is the satellite count and a non-empty batch has four rows, the
    call returns, and what it returns is false exactly when there is no
    satellite; a non-empty batch gives true whatever the fix is. *)
Theorem solve_false_only_when_empty sv weight adc_ticks self :
  TNT.dim2 sv = TNT.dim weight ->
  (TNT.dim2 sv <> 0%nat -> TNT.dim1 sv = 4%nat) ->
  exists b self',
    solve sv weight adc_ticks self = Some (b, self')
    /\ (b = false <-> TNT.dim2 sv = 0%nat)
    /\ (TNT.dim2 sv <> 0%nat -> b = true).
Proof.
  intros Hdim Hrows.
  destruct (Nat.eq_dec (TNT.dim2 sv) 0%nat) as [Hnsv|Hnsv].
  - exists false, self. unfold solve.
    rewrite <- Hdim, Hnsv. cbn. split; [reflexivity|]. split; [tauto|contradiction].
  - exists true. eexists. rewrite solve_total by auto.
    split; [reflexivity|]. split; [|reflexivity].
    split; [discriminate|contradiction].
Qed.


(** C3. When the filter update of an epoch succeeds, the exported geodetic
    coordinates, receiver time and oscillator correction are those of the
    filter, and the exported position is the point solver's position
    injected into it: no member of the filter is read for it. *)
Theorem successful_update_exports sv weight adc_ticks self self' :
  solve sv weight adc_ticks self = Some (true, self') ->
  let weight' := normalize_weights self weight in
  let mid := spp_epoch sv weight' adc_ticks self in
  update_succeeds sv weight' mid = true ->
  _ekf self' = (update_call sv weight' mid).2
  /\ llh self' = ekf_LLH (_ekf self')
  /\ t_rx self' = (ekf_ct_rx (_ekf self') / ekf_c (_ekf self'))%float
  /\ osc_corr self' = (ekf_state (_ekf self') 4 / ekf_c (_ekf self'))%float
  /\ pos self' = TNT.inject (pos self) (spp_pos (_spp self'))
  /\ (TNT.dim (spp_pos (_spp self')) = TNT.dim (pos self) ->
      pos self' = spp_pos (_spp self')).
Proof.
  intros Hsolve. cbv zeta. intros Hok.
  apply solve_nonempty in Hsolve as [-> _]. cbv zeta.
  destruct (ekf_epoch_exports _ _ _ Hok) as (Hllh & Ht & Hosc & Hpos).
  destruct (ekf_epoch_untouched sv (normalize_weights self weight)
              (spp_epoch sv (normalize_weights self weight) adc_ticks self))
    as (_ & _ & _ & _ & Hspp & _).
  destruct (update_succeeds_true _ _ _ Hok) as [Hmade _].
  split; [exact (ekf_epoch_ekf_made _ _ _ Hmade)|].
  split; [exact Hllh|]. split; [exact Ht|]. split; [exact Hosc|].
  assert (Hinj : pos (ekf_epoch sv (normalize_weights self weight)
                        (spp_epoch sv (normalize_weights self weight) adc_ticks self))
                 = TNT.inject (pos self)
                     (spp_pos (_spp (ekf_epoch sv (normalize_weights self weight)
                        (spp_epoch sv (normalize_weights self weight) adc_ticks self))))).
  { etransitivity; [exact Hpos|].
    rewrite Hspp, spp_epoch_pos, spp_epoch_spp. apply inject_if. }
  split; [exact Hinj|].
  intros Hdim. rewrite Hinj. now apply inject_same_dim.
Qed.

(** Every call leaves the object in the state of one of two shapes. *)
Lemma solve_cases sv weight adc_ticks self b self' :
  solve sv weight adc_ticks self = Some (b, self') ->
  (b = false /\ self' = self)
  \/ (b = true
      /\ self' = ekf_epoch sv (normalize_weights self weight)
                   (spp_epoch sv (normalize_weights self weight) adc_ticks self)).
Proof.
  destruct b; intros Hsolve.
  - right. apply solve_nonempty in Hsolve. tauto.
  - left. apply solve_empty in Hsolve. tauto.
Qed.

Lemma solve_pos_valid sv weight adc_ticks self b self' :
  solve sv weight adc_ticks self = Some (b, self') ->
  pos_valid self' = pos_valid self || (b && spp_valid self').
Proof.
  intros Hsolve. apply solve_cases in Hsolve as [[-> ->]|[-> ->]].
  - now rewrite orb_false_r.
  - set (weight' := normalize_weights self weight).
    destruct (ekf_epoch_untouched sv weight' (spp_epoch sv weight' adc_ticks self))
      as (Hst & _ & _ & Hpv & _).
    unfold pos_valid, spp_valid.
    rewrite Hpv, Hst, spp_epoch_pos_valid, spp_epoch_state_spp. reflexivity.
Qed.

Lemma solve_all_pos_valid epochs self self' :
  solve_all epochs self = Some self' ->
  pos_valid self = true -> pos_valid self' = true.
Proof.
  revert self. induction epochs as [|e rest IH]; intros self; cbn.
  - now intros [= <-].
  - destruct (solve (ep_sv e) (ep_weight e) (ep_ticks e) self) as [[b next]|] eqn:Hsolve;
      [|discriminate].
    intros Hrest Hvalid. apply (IH next Hrest).
    rewrite (solve_pos_valid _ _ _ _ _ _ Hsolve), Hvalid. reflexivity.
Qed.

(** C5. [pos_valid()] starts false, a call of [solve] sets it when the
    epoch's point solution passes the gate and otherwise leaves it as it
    was, and no later sequence of calls clears it. *)
Theorem pos_valid_monotone uere fOsc (yield : Y) sv weight adc_ticks self b self'
    epochs self'' :
  solve sv weight adc_ticks self = Some (b, self') ->
  solve_all epochs self' = Some self'' ->
  pos_valid (make uere fOsc yield) = false
  /\ pos_valid self' = pos_valid self || (b && spp_valid self')
  /\ (pos_valid self = true -> pos_valid self' = true)
  /\ (pos_valid self' = true -> pos_valid self'' = true).
Proof.
  intros Hsolve Hall.
  split; [reflexivity|]. split; [|split].
  - exact (solve_pos_valid _ _ _ _ _ _ Hsolve).
  - intros Hvalid. rewrite (solve_pos_valid _ _ _ _ _ _ Hsolve), Hvalid. reflexivity.
  - exact (solve_all_pos_valid _ _ _ Hall).
Qed.

Lemma spp_epoch_confidence sv weight adc_ticks self :
  confidence_ok self -> confidence_ok (spp_epoch sv weight adc_ticks self).
Proof.
  unfold confidence_ok. rewrite spp_epoch_ekf_running.
  destruct (bootstraps sv weight self); lia.
Qed.

Lemma ekf_epoch_confidence sv weight mid :
  confidence_ok mid -> confidence_ok (ekf_epoch sv weight mid).
Proof.
  unfold confidence_ok. rewrite ekf_epoch_ekf_running.
  destruct (update_succeeds sv weight mid).
  - unfold bool_to_int. destruct (_ekf_running mid <? 4) eqn:Hlt; lia.
  - destruct (update_fails sv weight mid); lia.
Qed.

Lemma solve_confidence sv weight adc_ticks self b self' :
  solve sv weight adc_ticks self = Some (b, self') ->
  confidence_ok self -> confidence_ok self'.
Proof.
  intros Hsolve. apply solve_cases in Hsolve as [[-> ->]|[-> ->]]; auto.
  intros. now apply ekf_epoch_confidence, spp_epoch_confidence.
Qed.

Lemma solve_all_confidence epochs self self' :
  solve_all epochs self = Some self' ->
  confidence_ok self -> confidence_ok self'.
Proof.
  revert self. induction epochs as [|e rest IH]; intros self; cbn.
  - now intros [= <-].
  - destruct (solve (ep_sv e) (ep_weight e) (ep_ticks e) self) as [[b next]|] eqn:Hsolve;
      [|discriminate].
    eauto using solve_confidence.
Qed.

(** C4. The confidence counter is -1 on a fresh object and stays within
    -1..4 through any sequence of calls, also between the blocks of a call;
    the bootstrap sets it to 0, a successful filter update adds one up to 4,
    and after a failed update it is -1. *)
Theorem ekf_running_domain uere fOsc (yield : Y) epochs self sv weight adc_ticks self' :
  solve_all epochs (make uere fOsc yield) = Some self ->
  solve sv weight adc_ticks self = Some (true, self') ->
  let weight' := normalize_weights self weight in
  let mid := spp_epoch sv weight' adc_ticks self in
  _ekf_running (make uere fOsc yield) = -1
  /\ -1 <= _ekf_running self <= 4
  /\ -1 <= _ekf_running mid <= 4
  /\ -1 <= _ekf_running self' <= 4
  /\ _ekf_running mid = (if bootstraps sv weight' self then 0 else _ekf_running self)
  /\ (update_succeeds sv weight' mid = true ->
      _ekf_running self' = Z.min (_ekf_running mid + 1) 4)
  /\ (update_fails sv weight' mid = true -> _ekf_running self' = -1).
Proof.
  intros Hall Hsolve. cbv zeta.
  assert (Hself : confidence_ok self).
  { apply (solve_all_confidence _ _ _ Hall).
    destruct (make_not_running uere fOsc yield sv weight) as (_ & Hrun & _).
    unfold confidence_ok. rewrite Hrun. lia. }
  pose proof (spp_epoch_confidence sv (normalize_weights self weight) adc_ticks self Hself)
    as Hmid.
  pose proof (ekf_epoch_confidence sv (normalize_weights self weight) _ Hmid) as Hself'.
  apply solve_nonempty in Hsolve as [-> _]. cbv zeta.
  split; [apply (make_not_running uere fOsc yield sv weight)|].
  split; [exact Hself|]. split; [exact Hmid|]. split; [exact Hself'|].
  split; [apply spp_epoch_ekf_running|].
  split; [apply ekf_epoch_running_success, Hmid|apply ekf_epoch_running_failure].
Qed.

(** C2, as the code has it. Every call on a non-empty batch shifts the point
    solver's tick history and the clock-bias history, whatever the validity
    of the epoch.  Of the filter's tick history only the current slot is
    written every epoch; its previous slot is written by the bootstrap and
    by a successful filter update alone, and it then receives the tick of
    this epoch, not the old current slot. *)
Theorem histories_after_solve sv weight adc_ticks self self' :
  solve sv weight adc_ticks self = Some (true, self') ->
  let weight' := normalize_weights self weight in
  let mid := spp_epoch sv weight' adc_ticks self in
  _ticks_spp self' = (adc_ticks, at0 (_ticks_spp self))
  /\ _ct_rx self' = (spp_ct_rx (_spp self'), at0 (_ct_rx self))
  /\ at0 (_ticks_ekf self') = adc_ticks
  /\ at1 (_ticks_ekf self')
     = (if bootstraps sv weight' self || update_succeeds sv weight' mid
        then adc_ticks else at1 (_ticks_ekf self)).
Proof.
  intros Hsolve weight' mid.
  apply solve_nonempty in Hsolve as [-> _]. fold weight' mid.
  destruct (ekf_epoch_untouched sv weight' mid) as (_ & Hts & Hct & _ & Hspp & _).
  rewrite Hts, Hct, Hspp, ekf_epoch_ticks_ekf. subst mid.
  rewrite spp_epoch_ticks_spp, spp_epoch_ct_rx, spp_epoch_spp, spp_epoch_ticks_ekf.
  repeat split.
  - now destruct (update_succeeds _ _ _).
  - destruct (update_succeeds _ _ _), (bootstraps sv weight' self); reflexivity.
Qed.

Lemma solve_spp_valid sv weight adc_ticks self self' :
  solve sv weight adc_ticks self = Some (true, self') ->
  spp_valid self' = accepted sv (normalize_weights self weight) self.
Proof.
  intros Hsolve. apply solve_nonempty in Hsolve as [-> _].
  destruct (ekf_epoch_untouched sv (normalize_weights self weight)
              (spp_epoch sv (normalize_weights self weight) adc_ticks self))
    as (Hst & _).
  unfold spp_valid. now rewrite Hst, spp_epoch_state_spp.
Qed.

(** C1, as the code has it. On a fresh object the first plausible epoch
    leaves the filter not running; the second one bootstraps it (confidence
    0) and, in the same call, runs the filter update: after the second call
    the confidence is 1 and [ekf_valid()] true when that update succeeded,
    and -1 with [ekf_valid()] false when it failed. *)
Theorem second_epoch_confidence uere fOsc (yield : Y)
    sv1 weight1 ticks1 self1 sv2 weight2 ticks2 self2 :
  solve sv1 weight1 ticks1 (make uere fOsc yield) = Some (true, self1) ->
  spp_valid self1 = true ->
  solve sv2 weight2 ticks2 self1 = Some (true, self2) ->
  spp_valid self2 = true ->
  let weight' := normalize_weights self1 weight2 in
  let mid := spp_epoch sv2 weight' ticks2 self1 in
  let ok := (update_call sv2 weight' mid).1 in
  _ekf_running self1 = -1
  /\ bootstraps sv2 weight' self1 = true
  /\ _ekf_running mid = 0
  /\ _ekf_running self2 = (if ok then 1 else -1)
  /\ ekf_valid self2 = ok.
Proof.
  intros Hsolve1 Hvalid1 Hsolve2 Hvalid2. cbv zeta.
  destruct (make_not_running uere fOsc yield sv1 (normalize_weights (make uere fOsc yield) weight1))
    as (Hboot1 & Hfresh & _).
  pose proof (solve_spp_valid _ _ _ _ _ Hsolve2) as Hacc2.
  assert (Hrun1 : _ekf_running self1 = -1).
  { apply solve_nonempty in Hsolve1 as [-> _]. cbv zeta.
    apply ekf_epoch_not_running. now rewrite spp_epoch_ekf_running, Hboot1. }
  assert (Hboot : bootstraps sv2 (normalize_weights self1 weight2) self1 = true).
  { apply bootstraps_true; congruence. }
  assert (Hmid : _ekf_running (spp_epoch sv2 (normalize_weights self1 weight2) ticks2 self1) = 0).
  { now rewrite spp_epoch_ekf_running, Hboot. }
  split; [exact Hrun1|]. split; [exact Hboot|]. split; [exact Hmid|].
  apply solve_nonempty in Hsolve2 as [-> _]. cbv zeta.
  now apply ekf_epoch_running_bootstrapped.
Qed.

(** C10, as the code has it. In a call that bootstraps the filter, the
    bootstrap leaves the filter's tick history with both slots at the tick of
    this epoch, so the filter update of the same call is made, on the filter
    just reset, with an elapsed time of zero ticks divided by the nominal
    frequency.  That is zero seconds for every nominal frequency other than
    zero (plus zero for a positive one); nothing makes it zero for the
    frequency zero. *)
Theorem bootstrap_update_elapsed sv weight adc_ticks self self' :
  solve sv weight adc_ticks self = Some (true, self') ->
  let weight' := normalize_weights self weight in
  let mid := spp_epoch sv weight' adc_ticks self in
  let dt_adc_sec := dadc_ticks_sec mid (_ticks_ekf mid) in
  bootstraps sv weight' self = true ->
  _ticks_ekf mid = (adc_ticks, adc_ticks)
  /\ _ekf_running mid = 0
  /\ _ekf self' = (ekf_update (_ekf mid) sv weight' dt_adc_sec).2
  /\ dadc_ticks (_ticks_ekf mid) = 0
  /\ dt_adc_sec = (0 / _fOsc self)%float
  /\ (((_fOsc self <? 0) || (0 <? _fOsc self))%float = true ->
      (dt_adc_sec =? 0)%float = true)
  /\ ((0 <? _fOsc self)%float = true -> dt_adc_sec = 0%float).
Proof.
  intros Hsolve. cbv zeta. intros Hboot.
  pose proof (spp_epoch_ticks_ekf sv (normalize_weights self weight) adc_ticks self)
    as Hticks.
  pose proof (spp_epoch_ekf_running sv (normalize_weights self weight) adc_ticks self)
    as Hmid.
  rewrite Hboot in Hticks, Hmid.
  apply solve_nonempty in Hsolve as [-> _]. cbv zeta.
  rewrite Hticks, dadc_ticks_sec_same, dadc_ticks_same, spp_epoch_fOsc.
  split; [reflexivity|]. split; [exact Hmid|].
  split.
  { rewrite ekf_epoch_ekf_made by now rewrite Hmid.
    now rewrite update_call_eq, Hticks, dadc_ticks_same, uint64_to_double_0, spp_epoch_fOsc. }
  split; [reflexivity|]. split; [reflexivity|].
  split; [now apply zero_div_nonzero|].
  intros Hpos. now apply zero_div_positive.
Qed.

(** *** elev_azim *)

Lemma g_length (calls : list (nat * double * double)) (elevAzim : list ElevAzim) :
  length (fold_left g calls elevAzim) = length elevAzim.
Proof.
  revert elevAzim. induction calls as [|[[i e] a] calls IH]; intros elevAzim; cbn.
  - reflexivity.
  - now rewrite IH, length_insert.
Qed.

Lemma g_one_call_per_column (rads : list (double * double)) (done rest : list ElevAzim) :
  length rest = length rads ->
  fold_left g (imap (fun i rad => (length done + i, rad.1, rad.2)%nat) rads)
            (done ++ rest)
  = done ++ map to_degrees rads.
Proof.
  revert done rest. induction rads as [|[e a] rads IH]; intros done rest Hlen.
  - destruct rest; [|discriminate]. reflexivity.
  - destruct rest as [|r rest]; [discriminate|]. injection Hlen as Hlen.
    cbn [imap fold_left map]. unfold g at 2. cbn [fst snd].
    rewrite Nat.add_0_r, insert_app_r_alt, Nat.sub_diag by lia.
    change (<[0%nat:=?x]> (r :: rest)) with (x :: rest).
    change (mkElevAzim (rad_to_deg e) (rad_to_deg a)) with (to_degrees (e, a)).
    rewrite (cons_middle (to_degrees (e, a)) done rest).
    rewrite (cons_middle (to_degrees (e, a)) done (map to_degrees rads)).
    rewrite !app_assoc.
    rewrite <- (IH (done ++ [to_degrees (e, a)]) rest Hlen).
    f_equal. apply imap_ext. intros i x _. cbn.
    rewrite length_app. cbn. do 2 f_equal. lia.
Qed.

(** C8. [elev_azim] returns the empty sequence when neither the point
    solution nor the filter is valid.  Otherwise it returns one entry per
    satellite column; the entries are written by the calls of the filter's
    iteration when [ekf_valid()] and of the point solver's otherwise, and
    when that iteration calls back once per column, in the order of the
    columns, entry [i] is the elevation and azimuth of column [i] converted
    from radians to degrees: each divided by the double nearest to pi and
    multiplied by 180. *)
Theorem elev_azim_spec self sv :
  (spp_valid self = false -> ekf_valid self = false -> elev_azim self sv = [])
  /\ (spp_valid self = true \/ ekf_valid self = true ->
      length (elev_azim self sv) = TNT.dim2 sv
      /\ elev_azim self sv
         = fold_left g (trusted_calls self sv)
                     (replicate (TNT.dim2 sv) ElevAzim_default)
      /\ forall rads : list (double * double),
           trusted_calls self sv = one_call_per_column rads ->
           length rads = TNT.dim2 sv ->
           elev_azim self sv
           = map (fun rad =>
                    {| elev_deg := (rad.1 / 0x1.921fb54442d18p+1 * 180)%float;
                       azim_deg := (rad.2 / 0x1.921fb54442d18p+1 * 180)%float |})
                 rads).
Proof.
  split.
  - intros Hspp Hekf. unfold elev_azim. now rewrite Hspp, Hekf.
  - intros Hvalid.
    assert (Hdef : elev_azim self sv
                   = fold_left g (trusted_calls self sv)
                       (replicate (TNT.dim2 sv) ElevAzim_default)).
    { unfold elev_azim, trusted_calls.
      destruct (spp_valid self), (ekf_valid self); cbn; try reflexivity.
      destruct Hvalid; discriminate. }
    rewrite Hdef. split; [|split; [reflexivity|]].
    + now rewrite g_length, length_replicate.
    + intros rads Hcalls Hlen. rewrite Hcalls. unfold one_call_per_column.
      transitivity (map to_degrees rads).
      * apply (g_one_call_per_column rads []). now rewrite length_replicate.
      * apply List.map_ext. intros rad. reflexivity.
Qed.

End Epoch.

(** * The properties on the scripted solvers *)

(** Each property above that has a premise is applied here to a run of the
    scripted solvers, where all its premises hold. *)
Section Runs.

Import Scripted.

Lemma solve_false_only_when_empty_run :
  TNT.dim2 sv_good = TNT.dim unit_weight
  /\ exists b self',
       solve sv_good unit_weight 5 fresh = Some (b, self')
       /\ (b = false <-> TNT.dim2 sv_good = 0%nat)
       /\ (TNT.dim2 sv_good <> 0%nat -> b = true).
Proof.
  assert (Hdim : TNT.dim2 sv_good = TNT.dim unit_weight) by (vm_compute; reflexivity).
  assert (Hrows : TNT.dim2 sv_good <> 0%nat -> TNT.dim1 sv_good = 4%nat)
    by (intros _; vm_compute; reflexivity).
  split; [exact Hdim|].
  exact (solve_false_only_when_empty sv_good unit_weight 5 fresh Hdim Hrows).
Defined.


Lemma successful_update_exports_run :
  let weight' := normalize_weights first_fix unit_weight in
  let mid := spp_epoch sv_good weight' 9 first_fix in
  solve sv_good unit_weight 9 first_fix = Some (true, tracking)
  /\ update_succeeds sv_good weight' mid = true
  /\ _ekf tracking = (update_call sv_good weight' mid).2
  /\ llh tracking = ekf_LLH (_ekf tracking)
  /\ t_rx tracking = (ekf_ct_rx (_ekf tracking) / ekf_c (_ekf tracking))%float
  /\ osc_corr tracking = (ekf_state (_ekf tracking) 4 / ekf_c (_ekf tracking))%float
  /\ pos tracking = TNT.inject (pos first_fix) (spp_pos (_spp tracking))
  /\ (TNT.dim (spp_pos (_spp tracking)) = TNT.dim (pos first_fix) ->
      pos tracking = spp_pos (_spp tracking)).
Proof.
  assert (Hsolve : solve sv_good unit_weight 9 first_fix = Some (true, tracking))
    by (vm_compute; reflexivity).
  assert (Hok : update_succeeds sv_good (normalize_weights first_fix unit_weight)
                  (spp_epoch sv_good (normalize_weights first_fix unit_weight) 9 first_fix)
                = true)
    by (vm_compute; reflexivity).
  split; [exact Hsolve|]. split; [exact Hok|].
  exact (successful_update_exports sv_good unit_weight 9 first_fix tracking Hsolve Hok).
Defined.

Lemma pos_valid_monotone_run :
  solve sv_good unit_weight 5 fresh = Some (true, first_fix)
  /\ solve_all [bad 9; good_diverging 12] first_fix
     = Some (after [good 5; bad 9; good_diverging 12])
  /\ pos_valid fresh = false
  /\ pos_valid first_fix = pos_valid fresh || (true && spp_valid first_fix)
  /\ (pos_valid fresh = true -> pos_valid first_fix = true)
  /\ (pos_valid first_fix = true ->
      pos_valid (after [good 5; bad 9; good_diverging 12]) = true).
Proof.
  assert (Hsolve : solve sv_good unit_weight 5 fresh = Some (true, first_fix))
    by (vm_compute; reflexivity).
  assert (Hall : solve_all [bad 9; good_diverging 12] first_fix
                 = Some (after [good 5; bad 9; good_diverging 12]))
    by (vm_compute; reflexivity).
  split; [exact Hsolve|]. split; [exact Hall|].
  exact (pos_valid_monotone 6%float 66666600%float tt sv_good unit_weight 5 fresh
           true first_fix [bad 9; good_diverging 12]
           (after [good 5; bad 9; good_diverging 12]) Hsolve Hall).
Defined.

Lemma ekf_running_domain_run :
  let weight' := normalize_weights tracking unit_weight in
  let mid := spp_epoch sv_diverging weight' 12 tracking in
  solve_all [good 5; good 9] fresh = Some tracking
  /\ solve sv_diverging unit_weight 12 tracking = Some (true, diverged)
  /\ _ekf_running fresh = -1
  /\ -1 <= _ekf_running tracking <= 4
  /\ -1 <= _ekf_running mid <= 4
  /\ -1 <= _ekf_running diverged <= 4
  /\ _ekf_running mid
     = (if bootstraps sv_diverging weight' tracking then 0 else _ekf_running tracking)
  /\ (update_succeeds sv_diverging weight' mid = true ->
      _ekf_running diverged = Z.min (_ekf_running mid + 1) 4)
  /\ (update_fails sv_diverging weight' mid = true -> _ekf_running diverged = -1).
Proof.
  assert (Hall : solve_all [good 5; good 9] fresh = Some tracking)
    by (vm_compute; reflexivity).
  assert (Hsolve : solve sv_diverging unit_weight 12 tracking = Some (true, diverged))
    by (vm_compute; reflexivity).
  split; [exact Hall|]. split; [exact Hsolve|].
  exact (ekf_running_domain 6%float 66666600%float tt [good 5; good 9] tracking
           sv_diverging unit_weight 12 diverged Hall Hsolve).
Defined.

Lemma histories_after_solve_run :
  let weight' := normalize_weights first_fix unit_weight in
  let mid := spp_epoch sv_good weight' 9 first_fix in
  solve sv_good unit_weight 9 first_fix = Some (true, tracking)
  /\ _ticks_spp tracking = (9, at0 (_ticks_spp first_fix))
  /\ _ct_rx tracking = (spp_ct_rx (_spp tracking), at0 (_ct_rx first_fix))
  /\ at0 (_ticks_ekf tracking) = 9
  /\ at1 (_ticks_ekf tracking)
     = (if bootstraps sv_good weight' first_fix || update_succeeds sv_good weight' mid
        then 9 else at1 (_ticks_ekf first_fix)).
Proof.
  assert (Hsolve : solve sv_good unit_weight 9 first_fix = Some (true, tracking))
    by (vm_compute; reflexivity).
  split; [exact Hsolve|].
  exact (histories_after_solve sv_good unit_weight 9 first_fix tracking Hsolve).
Defined.

(** C2 fails as stated: after two epochs without a fix the previous slot of
    the filter's tick history still holds its initial 0, not the tick 5 that
    the current slot held before the second call. *)
Lemma filter_ticks_do_not_shift :
  solve sv_bad unit_weight 5 fresh = Some (true, no_fix)
  /\ solve sv_bad unit_weight 9 no_fix = Some (true, no_fix_twice)
  /\ _ticks_ekf no_fix = (5, 0)
  /\ _ticks_ekf no_fix_twice = (9, 0)
  /\ at1 (_ticks_ekf no_fix_twice) <> at0 (_ticks_ekf no_fix).
Proof.
  split; [vm_compute; reflexivity|]. split; [vm_compute; reflexivity|].
  split; [vm_compute; reflexivity|]. split; [vm_compute; reflexivity|].
  vm_compute. discriminate.
Qed.

Lemma second_epoch_confidence_run :
  let weight' := normalize_weights first_fix unit_weight in
  let mid := spp_epoch sv_good weight' 9 first_fix in
  let ok := (update_call sv_good weight' mid).1 in
  solve sv_good unit_weight 5 fresh = Some (true, first_fix)
  /\ spp_valid first_fix = true
  /\ solve sv_good unit_weight 9 first_fix = Some (true, tracking)
  /\ spp_valid tracking = true
  /\ _ekf_running first_fix = -1
  /\ bootstraps sv_good weight' first_fix = true
  /\ _ekf_running mid = 0
  /\ _ekf_running tracking = (if ok then 1 else -1)
  /\ ekf_valid tracking = ok.
Proof.
  assert (Hsolve1 : solve sv_good unit_weight 5 fresh = Some (true, first_fix))
    by (vm_compute; reflexivity).
  assert (Hvalid1 : spp_valid first_fix = true) by (vm_compute; reflexivity).
  assert (Hsolve2 : solve sv_good unit_weight 9 first_fix = Some (true, tracking))
    by (vm_compute; reflexivity).
  assert (Hvalid2 : spp_valid tracking = true) by (vm_compute; reflexivity).
  split; [exact Hsolve1|]. split; [exact Hvalid1|].
  split; [exact Hsolve2|]. split; [exact Hvalid2|].
  exact (second_epoch_confidence 6%float 66666600%float tt sv_good unit_weight 5
           first_fix sv_good unit_weight 9 tracking
           Hsolve1 Hvalid1 Hsolve2 Hvalid2).
Defined.

(** C1 fails as stated: after the second of two plausible epochs on a fresh
    object the confidence is 1, not 0, and [ekf_valid()] is true. *)
Lemma second_epoch_confidence_is_not_0 :
  solve sv_good unit_weight 5 fresh = Some (true, first_fix)
  /\ spp_valid first_fix = true
  /\ solve sv_good unit_weight 9 first_fix = Some (true, tracking)
  /\ spp_valid tracking = true
  /\ _ekf_running tracking = 1
  /\ ekf_valid tracking = true.
Proof.
  split; [vm_compute; reflexivity|]. split; [vm_compute; reflexivity|].
  split; [vm_compute; reflexivity|]. split; [vm_compute; reflexivity|].
  split; vm_compute; reflexivity.
Qed.

Lemma bootstrap_update_elapsed_run :
  let weight' := normalize_weights first_fix unit_weight in
  let mid := spp_epoch sv_good weight' 9 first_fix in
  let dt_adc_sec := dadc_ticks_sec mid (_ticks_ekf mid) in
  solve sv_good unit_weight 9 first_fix = Some (true, tracking)
  /\ bootstraps sv_good weight' first_fix = true
  /\ ((_fOsc first_fix <? 0) || (0 <? _fOsc first_fix))%float = true
  /\ _ticks_ekf mid = (9, 9)
  /\ _ekf_running mid = 0
  /\ _ekf tracking = (ekf_update (_ekf mid) sv_good weight' dt_adc_sec).2
  /\ dadc_ticks (_ticks_ekf mid) = 0
  /\ dt_adc_sec = (0 / _fOsc first_fix)%float
  /\ (dt_adc_sec =? 0)%float = true
  /\ dt_adc_sec = 0%float.
Proof.
  assert (Hsolve : solve sv_good unit_weight 9 first_fix = Some (true, tracking))
    by (vm_compute; reflexivity).
  assert (Hboot : bootstraps sv_good (normalize_weights first_fix unit_weight) first_fix
                  = true)
    by (vm_compute; reflexivity).
  assert (HfOsc : ((_fOsc first_fix <? 0) || (0 <? _fOsc first_fix))%float = true)
    by (vm_compute; reflexivity).
  assert (Hpos : (0 <? _fOsc first_fix)%float = true) by (vm_compute; reflexivity).
  destruct (bootstrap_update_elapsed sv_good unit_weight 9 first_fix tracking
              Hsolve Hboot)
    as (Hticks & Hmid & Hekf & Hzero & Hdt & Hnonzero & Hpositive).
  split; [exact Hsolve|]. split; [exact Hboot|]. split; [exact HfOsc|].
  split; [exact Hticks|]. split; [exact Hmid|]. split; [exact Hekf|].
  split; [exact Hzero|]. split; [exact Hdt|].
  split; [exact (Hnonzero HfOsc)|exact (Hpositive Hpos)].
Defined.

(** C10 fails as stated: on an object made with the nominal frequency 0, the
    call that bootstraps the filter passes NaN, not 0 seconds, to the filter
    update of that call (the scripted filter keeps the elapsed time it was
    last given in [ekf_dt]). *)
Lemma bootstrap_update_elapsed_is_nan_at_frequency_0 :
  let weight' := normalize_weights first_fix_zero_fOsc unit_weight in
  let mid := spp_epoch sv_good weight' 9 first_fix_zero_fOsc in
  solve sv_good unit_weight 5 fresh_zero_fOsc = Some (true, first_fix_zero_fOsc)
  /\ solve sv_good unit_weight 9 first_fix_zero_fOsc = Some (true, tracking_zero_fOsc)
  /\ bootstraps sv_good weight' first_fix_zero_fOsc = true
  /\ dadc_ticks_sec mid (_ticks_ekf mid) = nan
  /\ ekf_dt (_ekf tracking_zero_fOsc) = nan
  /\ (nan =? 0)%float = false.
Proof.
  cbv zeta.
  split; [vm_compute; reflexivity|]. split; [vm_compute; reflexivity|].
  split; [vm_compute; reflexivity|]. split; [vm_compute; reflexivity|].
  split; vm_compute; reflexivity.
Qed.

Lemma elev_azim_spec_run :
  spp_valid first_fix = true
  /\ trusted_calls first_fix sv_two = one_call_per_column rads_two
  /\ length rads_two = TNT.dim2 sv_two
  /\ length (elev_azim first_fix sv_two) = TNT.dim2 sv_two
  /\ elev_azim first_fix sv_two
     = map (fun rad =>
              {| elev_deg := (rad.1 / 0x1.921fb54442d18p+1 * 180)%float;
                 azim_deg := (rad.2 / 0x1.921fb54442d18p+1 * 180)%float |})
           rads_two
  /\ elev_azim first_fix sv_two
     = [ {| elev_deg := 0x1.ca5dc1a63c1f8p+5%float;
            azim_deg := 0x1.57c6513cad17ap+7%float |};
         {| elev_deg := 0x1.ca5dc1a63c1f8p+6%float;
            azim_deg := 0x1.ca5dc1a63c1f8p+7%float |} ]
  /\ elev_azim fresh sv_two = [].
Proof.
  assert (Hvalid : spp_valid first_fix = true) by (vm_compute; reflexivity).
  assert (Hcalls : trusted_calls first_fix sv_two = one_call_per_column rads_two)
    by (vm_compute; reflexivity).
  assert (Hlen : length rads_two = TNT.dim2 sv_two) by (vm_compute; reflexivity).
  assert (Hspp : spp_valid fresh = false) by (vm_compute; reflexivity).
  assert (Hekf : ekf_valid fresh = false) by (vm_compute; reflexivity).
  assert (Hvalues : elev_azim first_fix sv_two
                    = [ {| elev_deg := 0x1.ca5dc1a63c1f8p+5%float;
                           azim_deg := 0x1.57c6513cad17ap+7%float |};
                        {| elev_deg := 0x1.ca5dc1a63c1f8p+6%float;
                           azim_deg := 0x1.ca5dc1a63c1f8p+7%float |} ])
    by (vm_compute; reflexivity).
  destruct (elev_azim_spec first_fix sv_two) as [_ Hsome].
  destruct (Hsome (or_introl Hvalid)) as (Hlength & _ & Hdeg).
  destruct (elev_azim_spec fresh sv_two) as [Hnone _].
  split; [exact Hvalid|]. split; [exact Hcalls|]. split; [exact Hlen|].
  split; [exact Hlength|]. split; [exact (Hdeg rads_two Hcalls Hlen)|].
  split; [exact Hvalues|exact (Hnone Hspp Hekf)].
Defined.

End Runs.

(** * Binary64 division of a tick count *)

Section Binary64.

(** The number of binary digits of a positive integer. *)
Lemma Zdigits2_log2 (p : positive) : Zdigits2 (Zpos p) = Z.succ (Z.log2 (Zpos p)).
Proof.
  destruct p as [p|p|]; cbn [Zdigits2 digits2_pos Z.log2];
    rewrite ?Pos2Z.inj_succ; try reflexivity.
  all: f_equal; f_equal; induction p; cbn; congruence.
Qed.

Lemma Zdigits2_bounds (m : Z) :
  0 < m -> 2 ^ (Zdigits2 m - 1) <= m < 2 ^ Zdigits2 m.
Proof.
  intros Hm. destruct m as [|p|p]; try lia.
  rewrite Zdigits2_log2. replace (Z.succ (Z.log2 (Z.pos p)) - 1) with (Z.log2 (Z.pos p)) by lia.
  apply Z.log2_spec. lia.
Qed.

Lemma Zdigits2_pos (m : Z) : 0 < m -> 1 <= Zdigits2 m.
Proof.
  intros Hm. destruct m as [|p|p]; try lia. rewrite Zdigits2_log2.
  pose proof (Z.log2_nonneg (Z.pos p)). lia.
Qed.

(** [d] digits exactly: the interval of the numbers that have them. *)
Lemma Zdigits2_unique (m d : Z) :
  2 ^ (d - 1) <= m < 2 ^ d -> 1 <= d -> Zdigits2 m = d.
Proof.
  intros [Hlo Hhi] Hd.
  assert (Hm : 0 < m) by (pose proof (Z.pow_pos_nonneg 2 (d - 1)); lia).
  destruct m as [|p|p]; try lia. rewrite Zdigits2_log2.
  rewrite (Z.log2_unique (Z.pos p) (d - 1)); [lia|lia|].
  now replace (Z.succ (d - 1)) with d by lia.
Qed.

Lemma Zdigits2_le_pow (m d : Z) : 0 < m -> 0 <= d -> 2 ^ d <= m -> d + 1 <= Zdigits2 m.
Proof.
  intros Hm Hd Hle. destruct (Zdigits2_bounds m Hm) as [_ Hhi].
  destruct (Z_lt_le_dec (Zdigits2 m) (d + 1)) as [Hlt|]; [|assumption].
  exfalso. assert (2 ^ Zdigits2 m <= 2 ^ d) by (apply Z.pow_le_mono_r; lia). lia.
Qed.

Lemma Zdigits2_mono (m m' : Z) : 0 < m -> m <= m' -> Zdigits2 m <= Zdigits2 m'.
Proof.
  intros Hm Hle. pose proof (Zdigits2_pos m Hm).
  destruct (Zdigits2_bounds m Hm) as [Hlo _].
  pose proof (Zdigits2_le_pow m' (Zdigits2 m - 1)). lia.
Qed.

Lemma Zdigits2_shiftl (m d : Z) :
  0 < m -> 0 <= d -> Zdigits2 (m * 2 ^ d) = Zdigits2 m + d.
Proof.
  intros Hm Hd. pose proof (Zdigits2_pos m Hm).
  destruct (Zdigits2_bounds m Hm) as [Hlo Hhi].
  assert (H2d : 0 < 2 ^ d) by (apply Z.pow_pos_nonneg; lia).
  apply Zdigits2_unique; [|lia]. split.
  - replace (Zdigits2 m + d - 1) with ((Zdigits2 m - 1) + d) by lia.
    rewrite Z.pow_add_r by lia. nia.
  - rewrite Z.pow_add_r by lia. nia.
Qed.

Lemma Zdigits2_shiftr (m k : Z) :
  0 < m -> 0 <= k < Zdigits2 m ->
  0 < m / 2 ^ k /\ Zdigits2 (m / 2 ^ k) = Zdigits2 m - k.
Proof.
  intros Hm Hk. destruct (Zdigits2_bounds m Hm) as [Hlo Hhi].
  assert (H2k : 0 < 2 ^ k) by (apply Z.pow_pos_nonneg; lia).
  assert (Hq : 2 ^ (Zdigits2 m - k - 1) <= m / 2 ^ k < 2 ^ (Zdigits2 m - k)).
  { split.
    - apply Z.div_le_lower_bound; [lia|]. rewrite <- Z.pow_add_r by lia.
      now replace (k + (Zdigits2 m - k - 1)) with (Zdigits2 m - 1) by lia.
    - apply Z.div_lt_upper_bound; [lia|]. rewrite <- Z.pow_add_r by lia.
      now replace (k + (Zdigits2 m - k)) with (Zdigits2 m) by lia. }
  assert (0 < 2 ^ (Zdigits2 m - k - 1)) by (apply Z.pow_pos_nonneg; lia).
  split; [lia|]. apply Zdigits2_unique; [|lia].
  now replace (Zdigits2 m - k - 1) with (Zdigits2 m - k - 1) in Hq by lia.
Qed.

(** *** Shifting the mantissa right *)

Lemma shr_1_m (mrs : shr_record) :
  0 <= shr_m mrs -> shr_m (shr_1 mrs) = shr_m mrs / 2.
Proof.
  destruct mrs as [m r s]. cbn [shr_m]. intros Hm.
  rewrite <- Z.div2_div.
  destruct m as [|[p|p|]|p]; try reflexivity. lia.
Qed.

Lemma pow2_double (k : Z) : 0 <= k -> 2 ^ (2 * k) = 2 ^ k * 2 ^ k.
Proof.
  intros Hk. replace (2 * k) with (k + k) by lia. now rewrite Z.pow_add_r.
Qed.

Lemma pow2_double_succ (k : Z) : 0 <= k -> 2 ^ (2 * k + 1) = 2 * (2 ^ k * 2 ^ k).
Proof.
  intros Hk. rewrite Z.pow_add_r, pow2_double, Z.pow_1_r by lia. ring.
Qed.

Lemma iter_shr_1_m (p : positive) (mrs : shr_record) :
  0 <= shr_m mrs ->
  shr_m (SpecFloat.iter_pos shr_1 p mrs) = shr_m mrs / 2 ^ Zpos p.
Proof.
  revert mrs. induction p as [p IH|p IH|]; intros mrs Hm; cbn [SpecFloat.iter_pos].
  - assert (H0 : 0 <= shr_m (shr_1 mrs)) by (rewrite shr_1_m by lia; apply Z.div_pos; lia).
    assert (H1 : 0 <= shr_m (SpecFloat.iter_pos shr_1 p (shr_1 mrs)))
      by (rewrite IH by lia; apply Z.div_pos; [lia|apply Z.pow_pos_nonneg; lia]).
    rewrite IH, IH, shr_1_m by lia.
    assert (0 < 2 ^ Zpos p) by (apply Z.pow_pos_nonneg; lia).
    rewrite !Z.div_div by lia. f_equal.
    symmetry. apply (pow2_double_succ (Zpos p)). lia.
  - assert (H1 : 0 <= shr_m (SpecFloat.iter_pos shr_1 p mrs))
      by (rewrite IH by lia; apply Z.div_pos; [lia|apply Z.pow_pos_nonneg; lia]).
    rewrite IH, IH by lia.
    assert (0 < 2 ^ Zpos p) by (apply Z.pow_pos_nonneg; lia).
    rewrite Z.div_div by lia. f_equal.
    symmetry. apply (pow2_double (Zpos p)). lia.
  - rewrite shr_1_m by lia. reflexivity.
Qed.

(** [shr] divides the mantissa by [2^n] and adds [n] to the exponent, for
    [n] above zero, and does nothing otherwise. *)
Lemma shr_m_e (mrs : shr_record) (e n : Z) :
  0 <= shr_m mrs ->
  shr_m (shr mrs e n).1 = shr_m mrs / 2 ^ Z.max 0 n
  /\ (shr mrs e n).2 = e + Z.max 0 n.
Proof.
  intros Hm. destruct n as [|p|p]; cbn [shr fst snd].
  - rewrite Z.div_1_r. lia.
  - rewrite iter_shr_1_m by lia. rewrite Z.max_r by lia. split; reflexivity.
  - rewrite Z.max_l by lia. rewrite Z.div_1_r. lia.
Qed.

Lemma shr_record_of_loc_m (m : Z) (l : location) :
  shr_m (shr_record_of_loc m l) = m.
Proof. destruct l as [|[]]; reflexivity. Qed.

(** The exponent range of binary64. *)
Lemma fexp_eq (e : Z) : fexp prec emax e = Z.max (e - 53) (-1074).
Proof. reflexivity. Qed.

(** A positive mantissa whose value is at least [2^-1074] stays positive
    when it is brought to the format, and keeps its magnitude. *)
Lemma shr_fexp_positive (m e : Z) (l : location) :
  0 < m -> -1074 < Zdigits2 m + e ->
  let m' := shr_m (shr_fexp prec emax m e l).1 in
  let e' := (shr_fexp prec emax m e l).2 in
  0 < m' /\ Zdigits2 m' + e' = Zdigits2 m + e.
Proof.
  intros Hm Hmag. cbv zeta. unfold shr_fexp. rewrite fexp_eq.
  remember (Z.max (Zdigits2 m + e - 53) (-1074) - e) as n eqn:Hn.
  assert (Hm0 : 0 <= shr_m (shr_record_of_loc m l))
    by (rewrite shr_record_of_loc_m; lia).
  destruct (shr_m_e (shr_record_of_loc m l) e n Hm0) as [Hm' He'].
  rewrite Hm', He', shr_record_of_loc_m.
  pose proof (Zdigits2_pos m Hm) as Hd.
  assert (Hk : 0 <= Z.max 0 n < Zdigits2 m) by lia.
  destruct (Zdigits2_shiftr m (Z.max 0 n) Hm Hk) as [Hpos Hdig].
  split; [exact Hpos|]. rewrite Hdig. lia.
Qed.

Lemma round_nearest_even_ge (m : Z) (l : location) :
  m <= round_nearest_even m l <= m + 1.
Proof.
  unfold round_nearest_even. destruct l as [|[]]; try lia.
  destruct (Z.even m); lia.
Qed.

(** Rounding a positive mantissa of at least [2^-1074] gives a positive
    finite number of at least that magnitude, or plus infinity. *)
Lemma binary_round_aux_positive (m e : Z) (l : location) :
  0 < m -> -1074 < Zdigits2 m + e ->
  binary_round_aux prec emax false m e l = S754_infinity false
  \/ exists m' e',
       binary_round_aux prec emax false m e l = S754_finite false m' e'
       /\ Zdigits2 m + e <= Zdigits2 (Zpos m') + e'.
Proof.
  intros Hm Hmag. unfold binary_round_aux.
  destruct (shr_fexp_positive m e l Hm Hmag) as [Hm1 Hd1]. cbv zeta in Hm1, Hd1.
  destruct (shr_fexp prec emax m e l) as [mrs1 e1]. cbn [fst snd] in Hm1, Hd1.
  pose proof (round_nearest_even_ge (shr_m mrs1) (loc_of_shr_record mrs1)) as Hr.
  remember (round_nearest_even (shr_m mrs1) (loc_of_shr_record mrs1)) as r eqn:Hreq.
  assert (Hdr : Zdigits2 (shr_m mrs1) <= Zdigits2 r) by (apply Zdigits2_mono; lia).
  assert (Hr0 : 0 < r) by lia.
  assert (Hrmag : -1074 < Zdigits2 r + e1) by lia.
  destruct (shr_fexp_positive r e1 loc_Exact Hr0 Hrmag) as [Hm2 Hd2].
  cbv zeta in Hm2, Hd2.
  destruct (shr_fexp prec emax r e1 loc_Exact) as [mrs2 e2]. cbn [fst snd] in Hm2, Hd2.
  destruct (shr_m mrs2) as [|m2|m2] eqn:Hm2eq; try lia.
  destruct (e2 <=? emax - prec); [right|left; reflexivity].
  exists m2, e2. split; [reflexivity|]. lia.
Qed.

(** *** Conversion from an integer *)

Lemma iter_xO (m d : positive) : Zpos (Pos.iter xO m d) = Zpos m * 2 ^ Zpos d.
Proof.
  rewrite <- Z.shiftl_mul_pow2 by lia. cbn [Z.shiftl].
  apply (Pos.iter_swap_gen _ _ Zpos xO (Z.mul 2)). reflexivity.
Qed.

Lemma shl_align_magnitude (mx : positive) (ex ex' : Z) :
  Zdigits2 (Zpos (shl_align mx ex ex').1) + (shl_align mx ex ex').2
  = Zdigits2 (Zpos mx) + ex.
Proof.
  unfold shl_align. destruct (ex' - ex) as [|d|d] eqn:Hd; cbn [fst snd]; try reflexivity.
  rewrite iter_xO, Zdigits2_shiftl by lia. lia.
Qed.

Lemma binary_round_positive (mx : positive) (ex : Z) :
  -1074 < Zdigits2 (Zpos mx) + ex ->
  binary_round prec emax false mx ex = S754_infinity false
  \/ exists m' e',
       binary_round prec emax false mx ex = S754_finite false m' e'
       /\ Zdigits2 (Zpos mx) + ex <= Zdigits2 (Zpos m') + e'.
Proof.
  intros Hmag. unfold binary_round.
  pose proof (shl_align_magnitude mx ex
                (fexp prec emax (Zpos (digits2_pos mx) + ex))) as Hal.
  destruct (shl_align mx ex (fexp prec emax (Zpos (digits2_pos mx) + ex))) as [mz ez].
  cbn [fst snd] in Hal. rewrite <- Hal in *.
  apply binary_round_aux_positive; lia.
Qed.

(** The double of an integer from 1 to [2^63 - 1] is at least 1. *)
Lemma uint64_to_double_spec (n : Z) :
  0 <= n < 2 ^ 63 ->
  Prim2SF (uint64_to_double n) = binary_normalize prec emax n 0 false.
Proof.
  intros Hn. unfold uint64_to_double.
  assert (Hphi : to_Z (of_Z n) = n).
  { rewrite of_Z_spec. apply Z.mod_small. exact Hn. }
  rewrite <- Hphi at 1 2. rewrite <- of_uint63_spec.
  now rewrite SF2Prim_Prim2SF.
Qed.

Lemma uint64_to_double_at_least_1 (n : Z) :
  1 <= n < 2 ^ 63 ->
  Prim2SF (uint64_to_double n) = S754_infinity false
  \/ exists m e,
       Prim2SF (uint64_to_double n) = S754_finite false m e
       /\ 1 <= Zdigits2 (Zpos m) + e.
Proof.
  intros Hn. rewrite uint64_to_double_spec by lia.
  destruct n as [|p|p]; try lia. cbn [binary_normalize].
  pose proof (Zdigits2_pos (Zpos p) eq_refl) as Hd.
  destruct (binary_round_positive p 0) as [Hinf|(m & e & Hfin & Hmag)]; [lia|auto|].
  right. exists m, e. split; [exact Hfin|lia].
Qed.

(** *** Division *)

(** A valid finite number is below [2^1024]. *)
Lemma valid_binary_magnitude (s : bool) (m : positive) (e : Z) :
  valid_binary (S754_finite s m e) = true -> Zdigits2 (Zpos m) + e <= 1024.
Proof.
  cbn [SpecFloat.valid_binary]. unfold bounded, canonical_mantissa.
  rewrite andb_true_iff, Z.eqb_eq, Z.leb_le, fexp_eq.
  change (emax - prec) with 971. cbn [Zdigits2]. lia.
Qed.

(** The quotient of a number of at least 1 by a valid finite positive
    number is a positive finite number or plus infinity: it does not
    underflow to zero. *)
Lemma SFdiv_positive (mx my : positive) (ex ey : Z) :
  1 <= Zdigits2 (Zpos mx) + ex ->
  Zdigits2 (Zpos my) + ey <= 1024 ->
  SF64div (S754_finite false mx ex) (S754_finite false my ey) = S754_infinity false
  \/ exists m e,
       SF64div (S754_finite false mx ex) (S754_finite false my ey)
       = S754_finite false m e.
Proof.
  intros Hx Hy. unfold SF64div, SFdiv, SFdiv_core_binary.
  remember (Zdigits2 (Zpos mx)) as d1 eqn:Hd1.
  remember (Zdigits2 (Zpos my)) as d2 eqn:Hd2.
  rewrite fexp_eq.
  remember (Z.min (Z.max (d1 + ex - (d2 + ey) - 53) (-1074)) (ex - ey)) as e' eqn:He'.
  remember (ex - ey - e') as s eqn:Hs.
  assert (Hs0 : 0 <= s) by lia.
  pose proof (Zdigits2_pos (Zpos mx) eq_refl) as Hd1pos.
  pose proof (Zdigits2_pos (Zpos my) eq_refl) as Hd2pos.
  rewrite <- Hd1 in Hd1pos. rewrite <- Hd2 in Hd2pos.
  assert (Hm' : match s with
                | 0 => Zpos mx
                | Zpos _ => Z.shiftl (Zpos mx) s
                | Zneg _ => 0
                end = Zpos mx * 2 ^ s).
  { destruct s as [|p|p]; try lia. apply Z.shiftl_mul_pow2. lia. }
  rewrite Hm'.
  assert (Hdm : Zdigits2 (Zpos mx * 2 ^ s) = d1 + s)
    by (rewrite Zdigits2_shiftl by lia; lia).
  remember (Zpos mx * 2 ^ s) as m' eqn:Hm'eq.
  assert (Hm'pos : 0 < m').
  { assert (0 < 2 ^ s) by (apply Z.pow_pos_nonneg; lia). nia. }
  destruct (Zdigits2_bounds m' Hm'pos) as [Hlo _].
  destruct (Zdigits2_bounds (Zpos my) eq_refl) as [_ Hhi]. rewrite <- Hd2 in Hhi.
  rewrite Hdm in Hlo.
  pose proof (Z.div_eucl_eq m' (Zpos my) ltac:(lia)) as Heucl.
  pose proof (Z.mod_pos_bound m' (Zpos my) eq_refl) as Hrem.
  unfold Z.modulo in Hrem.
  destruct (Z.div_eucl m' (Zpos my)) as [q r].
  (* the quotient has at least [d1 + s - d2] digits *)
  assert (Hk : 0 <= d1 + s - d2 - 1) by lia.
  assert (Hq : 2 ^ (d1 + s - d2 - 1) <= q).
  { assert (Hpow : 2 ^ (d1 + s - 1) = 2 ^ d2 * 2 ^ (d1 + s - d2 - 1)).
    { rewrite <- Z.pow_add_r by lia. f_equal. lia. }
    assert (0 < 2 ^ (d1 + s - d2 - 1)) by (apply Z.pow_pos_nonneg; lia).
    destruct (Z_lt_le_dec q (2 ^ (d1 + s - d2 - 1))) as [Hlt|]; [exfalso|assumption].
    assert (Zpos my * q + r < Zpos my * (q + 1)) by lia.
    assert (Zpos my * (q + 1) <= Zpos my * 2 ^ (d1 + s - d2 - 1)) by nia.
    assert (Zpos my * 2 ^ (d1 + s - d2 - 1) < 2 ^ d2 * 2 ^ (d1 + s - d2 - 1)) by nia.
    lia. }
  assert (Hqpos : 0 < q).
  { assert (0 < 2 ^ (d1 + s - d2 - 1)) by (apply Z.pow_pos_nonneg; lia). lia. }
  pose proof (Zdigits2_le_pow q (d1 + s - d2 - 1) Hqpos Hk Hq) as Hdq.
  destruct (binary_round_aux_positive q e' (new_location (Zpos my) r) Hqpos)
    as [Hinf|(m & e & Hfin & _)]; [lia| |].
  - left. exact Hinf.
  - right. exists m, e. exact Hfin.
Qed.

(** A tick count of at least one, divided by a positive finite frequency,
    is above zero. *)
Lemma ticks_div_positive (n : Z) (fOsc : double) :
  1 <= n < 2 ^ 63 ->
  positive_finite fOsc = true ->
  (0 <? uint64_to_double n / fOsc)%float = true.
Proof.
  intros Hn HfOsc. unfold positive_finite in HfOsc.
  apply andb_true_iff in HfOsc as [Hpos Hfin].
  rewrite FloatAxioms.ltb_spec, FloatAxioms.div_spec.
  change (Prim2SF 0) with (S754_zero false).
  pose proof (Prim2SF_valid fOsc) as Hvalid.
  rewrite FloatAxioms.ltb_spec in Hfin.
  change (Prim2SF infinity) with (S754_infinity false) in Hfin.
  destruct (positive_cases fOsc Hpos) as [Hy|(my & ey & Hy)]; rewrite Hy in *.
  - discriminate.
  - apply valid_binary_magnitude in Hvalid.
    destruct (uint64_to_double_at_least_1 n Hn) as [Hx|(mx & ex & Hx & Hmag)];
      rewrite Hx.
    + reflexivity.
    + destruct (SFdiv_positive mx my ex ey Hmag Hvalid) as [->|(m & e & ->)];
        reflexivity.
Qed.

End Binary64.

(** * Further properties of the tick arithmetic *)

Lemma dadc_ticks_wrap (newest previous : uint64_t) :
  0 <= newest < previous -> previous < 2 ^ 48 ->
  dadc_ticks (newest, previous) = newest + 2 ^ 48 - previous.
Proof.
  intros Hlt Hprev.
  unfold dadc_ticks, sub64, add64, mul64, wrap64, at0, at1. cbn [fst snd].
  destruct (Z.ltb_spec newest previous) as [_|]; [|lia]. cbn [bool_to_int].
  change (Z.shiftl 1 48) with (2 ^ 48). rewrite Z.mul_1_l.
  change (2 ^ 64) with 18446744073709551616 in *.
  change (2 ^ 48) with 281474976710656 in *.
  rewrite (Z.mod_small 281474976710656) by lia.
  rewrite (Z.mod_small (newest + 281474976710656)) by lia.
  apply Z.mod_small. lia.
Qed.

Lemma dadc_ticks_no_wrap (newest previous : uint64_t) :
  0 <= previous <= newest -> newest < 2 ^ 64 ->
  dadc_ticks (newest, previous) = newest - previous.
Proof.
  intros Hle Hnew.
  unfold dadc_ticks, sub64, add64, mul64, wrap64, at0, at1. cbn [fst snd].
  destruct (Z.ltb_spec newest previous) as [|_]; [lia|]. cbn [bool_to_int].
  rewrite Z.mul_0_l. change (2 ^ 64) with 18446744073709551616 in *.
  rewrite Zmod_0_l, Z.add_0_r, (Z.mod_small newest) by lia.
  apply Z.mod_small. lia.
Qed.

(** X1. When the counter did not wrap (the previous value is at most the
    newest), the elapsed tick count is their difference, over the whole
    64-bit range. *)
Theorem elapsed_ticks_without_wrap (newest previous : uint64_t) :
  0 <= previous <= newest -> newest < 2 ^ 64 ->
  dadc_ticks (newest, previous) = newest - previous.
Proof. apply dadc_ticks_no_wrap. Qed.

(** X2. For two 48-bit tick values the elapsed tick count is their
    difference modulo [2^48]: it lies in [0, 2^48), whether the counter
    wrapped once or not. *)
Theorem elapsed_ticks_mod_2_48 (newest previous : uint64_t) :
  0 <= newest < 2 ^ 48 -> 0 <= previous < 2 ^ 48 ->
  dadc_ticks (newest, previous) = (newest - previous) mod 2 ^ 48
  /\ 0 <= dadc_ticks (newest, previous) < 2 ^ 48.
Proof.
  intros Hnew Hprev.
  assert (Heq : dadc_ticks (newest, previous) = (newest - previous) mod 2 ^ 48).
  { destruct (Z_lt_le_dec newest previous) as [Hlt|Hle].
    - rewrite dadc_ticks_wrap by lia.
      rewrite <- (Z.mod_add (newest - previous) 1 (2 ^ 48)) by lia.
      symmetry. replace (newest - previous + 1 * 2 ^ 48) with (newest + 2 ^ 48 - previous) by lia.
      apply Z.mod_small. lia.
    - assert (2 ^ 48 < 2 ^ 64) by reflexivity.
      rewrite dadc_ticks_no_wrap by lia. symmetry. apply Z.mod_small. lia. }
  split; [exact Heq|]. rewrite Heq. apply Z.mod_pos_bound. reflexivity.
Qed.
(** A mantissa that has its exponent already is not shifted. *)
Lemma shr_fexp_canonical (m e : Z) (l : location) :
  Z.max (Zdigits2 m + e - 53) (-1074) = e ->
  shr_fexp prec emax m e l = (shr_record_of_loc m l, e).
Proof.
  intros He. unfold shr_fexp. rewrite fexp_eq, He, Z.sub_diag. reflexivity.
Qed.

(** An integer below [2^53] is converted without rounding: the double has
    the mantissa [n * 2^(53 - d)] and the exponent [d - 53], for [d] the
    number of binary digits of [n]. *)
Lemma binary_round_exact (p : positive) :
  Zpos p < 2 ^ 53 ->
  exists m e,
    binary_round prec emax false p 0 = S754_finite false m e
    /\ e <= 0 /\ Zpos m = Zpos p * 2 ^ (- e).
Proof.
  intros Hp.
  pose proof (Zdigits2_pos (Zpos p) eq_refl) as Hd1.
  assert (Hd53 : Zdigits2 (Zpos p) <= 53).
  { destruct (Zdigits2_bounds (Zpos p) eq_refl) as [Hlo _].
    destruct (Z_lt_le_dec 53 (Zdigits2 (Zpos p))) as [Hgt|]; [exfalso|assumption].
    assert (2 ^ 53 <= 2 ^ (Zdigits2 (Zpos p) - 1)) by (apply Z.pow_le_mono_r; lia).
    lia. }
  unfold binary_round. rewrite Z.add_0_r, fexp_eq.
  change (Zpos (digits2_pos p)) with (Zdigits2 (Zpos p)).
  remember (Zdigits2 (Zpos p)) as d eqn:Hd.
  rewrite Z.max_l by lia.
  pose proof (shl_align_magnitude p 0 (d - 53)) as Hmag.
  assert (Hal : (shl_align p 0 (d - 53)).2 = d - 53
                /\ Zpos (shl_align p 0 (d - 53)).1 = Zpos p * 2 ^ (53 - d)).
  { unfold shl_align. rewrite Z.sub_0_r.
    destruct (d - 53) as [|q|q] eqn:Hq; try lia; cbn [fst snd].
    - replace (53 - d) with 0 by lia. split; lia.
    - rewrite iter_xO. replace (53 - d) with (Zpos q) by lia. split; reflexivity. }
  destruct (shl_align p 0 (d - 53)) as [mz ez]. cbn [fst snd] in Hmag, Hal.
  destruct Hal as [-> Hmz]. rewrite <- Hd, Z.add_0_r in Hmag.
  exists mz, (d - 53).
  split; [|split; [lia|rewrite Hmz; f_equal; f_equal; lia]].
  unfold binary_round_aux.
  rewrite shr_fexp_canonical by lia.
  cbn [shr_record_of_loc shr_m loc_of_shr_record round_nearest_even].
  rewrite shr_fexp_canonical by lia.
  cbn [shr_record_of_loc shr_m].
  destruct (Z.leb_spec (d - 53) (emax - prec)) as [_|Hgt]; [reflexivity|].
  change (emax - prec) with 971 in Hgt. lia.
Qed.

Lemma uint64_to_double_exact (n : Z) :
  0 < n < 2 ^ 53 ->
  exists m e,
    Prim2SF (uint64_to_double n) = S754_finite false m e
    /\ e <= 0 /\ Zpos m = n * 2 ^ (- e).
Proof.
  intros Hn. assert (2 ^ 53 < 2 ^ 63) by reflexivity.
  rewrite uint64_to_double_spec by lia.
  destruct n as [|p|p]; try lia. cbn [binary_normalize].
  apply binary_round_exact. lia.
Qed.

Lemma dadc_ticks_48 (newest previous : uint64_t) :
  0 <= newest < 2 ^ 48 -> 0 <= previous < 2 ^ 48 -> newest <> previous ->
  1 <= dadc_ticks (newest, previous) < 2 ^ 48.
Proof.
  intros Hnew Hprev Hne. assert (2 ^ 48 < 2 ^ 64) by reflexivity.
  destruct (Z_lt_le_dec newest previous) as [Hlt|Hle].
  - rewrite dadc_ticks_wrap by lia. lia.
  - rewrite dadc_ticks_no_wrap by lia. lia.
Qed.

Section ElapsedSeconds.

Context {Y S E : Type}.
Context {SPP : SinglePointPositionSolver Y S} {EKF : EKFPositionSolver Y E}.

Implicit Types self : PosSolverImpl S E.


(** X4. For two 48-bit tick values and a positive finite nominal frequency,
    the elapsed seconds are above zero exactly when the two values differ
    (and are zero when they are equal): the division never underflows. *)
Theorem elapsed_seconds_positive_iff self (newest previous : uint64_t) :
  0 <= newest < 2 ^ 48 -> 0 <= previous < 2 ^ 48 ->
  positive_finite (_fOsc self) = true ->
  (0 <? dadc_ticks_sec self (newest, previous))%float = true
  <-> newest <> previous.
Proof.
  intros Hnew Hprev HfOsc. split.
  - intros Hpos ->. rewrite dadc_ticks_sec_same in Hpos.
    unfold positive_finite in HfOsc. apply andb_true_iff in HfOsc as [Hf _].
    rewrite (zero_div_positive _ Hf) in Hpos. discriminate.
  - intros Hne. unfold dadc_ticks_sec.
    pose proof (dadc_ticks_48 newest previous Hnew Hprev Hne).
    assert (2 ^ 48 < 2 ^ 63) by reflexivity.
    apply ticks_div_positive; [lia|exact HfOsc].
Qed.

End ElapsedSeconds.

(** X5. The elapsed tick count of two different 48-bit tick values is
    converted to [double] without rounding: the double is the finite number
    [m * 2^e] with [e <= 0] and [m = ticks * 2^(-e)]. *)
Theorem tick_count_converted_exactly (newest previous : uint64_t) :
  0 <= newest < 2 ^ 48 -> 0 <= previous < 2 ^ 48 -> newest <> previous ->
  exists m e,
    Prim2SF (uint64_to_double (dadc_ticks (newest, previous))) = S754_finite false m e
    /\ e <= 0
    /\ Zpos m = dadc_ticks (newest, previous) * 2 ^ (- e).
Proof.
  intros Hnew Hprev Hne.
  pose proof (dadc_ticks_48 newest previous Hnew Hprev Hne).
  assert (2 ^ 48 < 2 ^ 53) by reflexivity.
  apply uint64_to_double_exact. lia.
Qed.

(** * Further properties of one epoch *)

Section MoreEpoch.

Context {Y S E : Type}.
Context {SPP : SinglePointPositionSolver Y S} {EKF : EKFPositionSolver Y E}.

Implicit Types self mid : PosSolverImpl S E.
Implicit Types (sv : mat_type) (weight : vec_type) (adc_ticks : uint64_t).

Lemma spp_epoch_llh sv weight adc_ticks self :
  _llh (spp_epoch sv weight adc_ticks self)
  = if accepted sv weight self then spp_LLH (solved_spp sv weight self)
    else _llh self.
Proof. spp_blocks self. Qed.

Lemma spp_epoch_t_rx sv weight adc_ticks self :
  _t_rx (spp_epoch sv weight adc_ticks self)
  = if accepted sv weight self
    then (spp_ct_rx (solved_spp sv weight self) / spp_c (solved_spp sv weight self))%float
    else _t_rx self.
Proof. spp_blocks self. Qed.

Lemma spp_epoch_osc_corr sv weight adc_ticks self :
  _osc_corr (spp_epoch sv weight adc_ticks self)
  = if accepted sv weight self && spp_valid self
    then osc_corr_of_fixes (solved_spp sv weight self)
           (spp_ct_rx (solved_spp sv weight self)) (at0 (_ct_rx self))
           (dadc_ticks_sec self (adc_ticks, at0 (_ticks_spp self)))
    else _osc_corr self.
Proof. unfold osc_corr_of_fixes. spp_blocks self. Qed.

Lemma spp_epoch_ekf sv weight adc_ticks self :
  _ekf (spp_epoch sv weight adc_ticks self)
  = if bootstraps sv weight self
    then ekf_Reset (_ekf self)
           (bootstrap_state (spp_state (solved_spp sv weight self))
              (_osc_corr (spp_epoch sv weight adc_ticks self) * ekf_c (_ekf self))%float)
           (bootstrap_cov (spp_cov (solved_spp sv weight self)))
    else _ekf self.
Proof.
  rewrite spp_epoch_osc_corr. unfold osc_corr_of_fixes, bootstrap_state, bootstrap_cov.
  spp_blocks self.
Qed.

Lemma inject_dim (dst src : vec_type) : TNT.dim (TNT.inject dst src) = TNT.dim dst.
Proof.
  unfold TNT.inject. destruct (TNT.dim src =? TNT.dim dst)%nat eqn:Hd; [|reflexivity].
  now apply Nat.eqb_eq in Hd.
Qed.

Lemma ekf_epoch_pos sv weight mid :
  _pos (ekf_epoch sv weight mid)
  = if update_succeeds sv weight mid
    then TNT.inject (_pos mid) (spp_pos (_spp mid)) else _pos mid.
Proof.
  destruct (update_succeeds sv weight mid) eqn:Hok.
  - apply (ekf_epoch_exports sv weight mid Hok).
  - apply (ekf_epoch_no_exports sv weight mid Hok).
Qed.

Lemma solve_ekf_valid sv weight adc_ticks self self' :
  solve sv weight adc_ticks self = Some (true, self') ->
  ekf_valid self'
  = update_succeeds sv (normalize_weights self weight)
      (spp_epoch sv (normalize_weights self weight) adc_ticks self).
Proof.
  intros Hsolve. apply solve_nonempty in Hsolve as [-> _]. cbv zeta.
  apply update_succeeds_ekf_valid.
Qed.

Lemma bootstraps_false_cases sv weight self :
  accepted sv weight self = false \/ spp_valid self = false
  \/ _ekf_running self <> -1 ->
  bootstraps sv weight self = false.
Proof.
  unfold bootstraps. intros [->|[->|Hr]]; rewrite ?andb_false_r; try reflexivity.
  apply Z.eqb_neq in Hr. rewrite Hr. now rewrite andb_false_r.
Qed.

Lemma update_succeeds_not_running sv weight mid :
  _ekf_running mid = -1 -> update_succeeds sv weight mid = false.
Proof. unfold update_succeeds. now intros ->. Qed.

(** *** Errors and the empty batch *)

(** X6. [solve] fails an assertion exactly when the weight count differs
    from the satellite count, or when a non-empty batch does not have four
    rows; an empty batch is not checked for its rows. *)
Theorem solve_aborts_iff sv weight adc_ticks self :
  solve sv weight adc_ticks self = None
  <-> TNT.dim2 sv <> TNT.dim weight
      \/ (TNT.dim2 sv <> 0%nat /\ TNT.dim1 sv <> 4%nat).
Proof.
  unfold solve.
  destruct (Nat.eqb_spec (TNT.dim2 sv) (TNT.dim weight)) as [Hdim|Hdim]; cbn [negb].
  - destruct (Nat.eqb_spec (TNT.dim2 sv) 0) as [Hnsv|Hnsv].
    + split; [discriminate|]. intros [?|[? _]]; contradiction.
    + destruct (Nat.eqb_spec (TNT.dim1 sv) 4) as [Hrows|Hrows]; cbn [negb].
      * split; [discriminate|]. intros [?|[_ ?]]; contradiction.
      * split; auto.
  - split; auto.
Qed.

(** X7. A batch without satellites (and without weights) makes [solve]
    return false and leaves the object as it was, whatever the number of
    rows: no history is shifted and no validity flag changes. *)
Theorem empty_batch_changes_nothing sv weight adc_ticks self :
  TNT.dim2 sv = 0%nat -> TNT.dim weight = 0%nat ->
  solve sv weight adc_ticks self = Some (false, self).
Proof. intros Hnsv Hdim. unfold solve. now rewrite Hnsv, Hdim. Qed.

(** *** What an epoch exports *)

(** X8. An epoch after which neither the point solution nor the filter is
    valid leaves every exported field, and the sticky flag, as they were. *)
Theorem rejected_epoch_keeps_exports sv weight adc_ticks self self' :
  solve sv weight adc_ticks self = Some (true, self') ->
  spp_valid self' = false ->
  ekf_valid self' = false ->
  llh self' = llh self /\ t_rx self' = t_rx self /\ osc_corr self' = osc_corr self
  /\ pos self' = pos self /\ pos_valid self' = pos_valid self.
Proof.
  intros Hsolve Hspp Hekf.
  rewrite (solve_spp_valid _ _ _ _ _ Hsolve) in Hspp.
  rewrite (solve_ekf_valid _ _ _ _ _ Hsolve) in Hekf.
  apply solve_nonempty in Hsolve as [-> _]. cbv zeta.
  destruct (ekf_epoch_no_exports _ _ _ Hekf) as (Hllh & Ht & Hosc & Hpos).
  destruct (ekf_epoch_untouched sv (normalize_weights self weight)
              (spp_epoch sv (normalize_weights self weight) adc_ticks self))
    as (_ & _ & _ & Hpv & _).
  unfold llh, t_rx, osc_corr, pos, pos_valid.
  rewrite Hllh, Ht, Hosc, Hpos, Hpv.
  rewrite spp_epoch_llh, spp_epoch_t_rx, spp_epoch_osc_corr, spp_epoch_pos,
    spp_epoch_pos_valid, Hspp.
  now rewrite orb_false_r.
Qed.

(** X9. An epoch whose point solution is valid while the filter is not
    exports the point solver's fix: its geodetic coordinates, its clock bias
    over the speed of light as receiver time, its position; the sticky flag
    is set.  The oscillator correction is left as it was when the previous
    point solution was not valid. *)
Theorem accepted_epoch_exports_fix sv weight adc_ticks self self' :
  solve sv weight adc_ticks self = Some (true, self') ->
  spp_valid self' = true ->
  ekf_valid self' = false ->
  llh self' = spp_LLH (_spp self')
  /\ t_rx self' = (spp_ct_rx (_spp self') / spp_c (_spp self'))%float
  /\ pos self' = TNT.inject (pos self) (spp_pos (_spp self'))
  /\ pos_valid self' = true
  /\ (spp_valid self = false -> osc_corr self' = osc_corr self).
Proof.
  intros Hsolve Hspp Hekf.
  rewrite (solve_spp_valid _ _ _ _ _ Hsolve) in Hspp.
  rewrite (solve_ekf_valid _ _ _ _ _ Hsolve) in Hekf.
  apply solve_nonempty in Hsolve as [-> _]. cbv zeta.
  destruct (ekf_epoch_no_exports _ _ _ Hekf) as (Hllh & Ht & Hosc & Hpos).
  destruct (ekf_epoch_untouched sv (normalize_weights self weight)
              (spp_epoch sv (normalize_weights self weight) adc_ticks self))
    as (_ & _ & _ & Hpv & Hsolver & _).
  unfold llh, t_rx, osc_corr, pos, pos_valid.
  rewrite Hllh, Ht, Hosc, Hpos, Hpv, Hsolver.
  rewrite spp_epoch_llh, spp_epoch_t_rx, spp_epoch_osc_corr, spp_epoch_pos,
    spp_epoch_pos_valid, spp_epoch_spp, Hspp.
  split; [reflexivity|]. split; [reflexivity|]. split; [reflexivity|].
  split; [apply orb_true_r|].
  intros ->. reflexivity.
Qed.

(** X10. When this point solution and the previous one are valid and the
    filter is not valid afterwards, the exported oscillator correction is
    the one the two fixes give: the difference of the two entries of the
    clock-bias history, brought into one GPS week, over the speed of light
    and over the elapsed time between the two entries of the point solver's
    tick history. *)
Theorem osc_corr_from_two_fixes sv weight adc_ticks self self' :
  solve sv weight adc_ticks self = Some (true, self') ->
  spp_valid self = true ->
  spp_valid self' = true ->
  ekf_valid self' = false ->
  osc_corr self'
  = osc_corr_of_fixes (_spp self') (at0 (_ct_rx self')) (at1 (_ct_rx self'))
      (dadc_ticks_sec self' (_ticks_spp self')).
Proof.
  intros Hsolve Hbefore Hspp Hekf.
  rewrite (solve_spp_valid _ _ _ _ _ Hsolve) in Hspp.
  rewrite (solve_ekf_valid _ _ _ _ _ Hsolve) in Hekf.
  apply solve_nonempty in Hsolve as [-> _]. cbv zeta.
  destruct (ekf_epoch_no_exports _ _ _ Hekf) as (_ & _ & Hosc & _).
  destruct (ekf_epoch_untouched sv (normalize_weights self weight)
              (spp_epoch sv (normalize_weights self weight) adc_ticks self))
    as (_ & Hts & Hct & _ & Hsolver & HfOsc).
  unfold osc_corr, dadc_ticks_sec.
  rewrite Hosc, Hts, Hct, Hsolver, HfOsc.
  rewrite spp_epoch_osc_corr, spp_epoch_ticks_spp, spp_epoch_ct_rx, spp_epoch_spp,
    spp_epoch_fOsc, Hspp, Hbefore.
  reflexivity.
Qed.

(** *** The filter *)

(** X11. After a processed epoch [ekf_valid()] says what happened in that
    very call: it is true exactly when the filter update was made (the
    filter was running, or was bootstrapped in this call) and succeeded. *)
Theorem ekf_valid_iff_update_succeeded sv weight adc_ticks self self' :
  solve sv weight adc_ticks self = Some (true, self') ->
  let weight' := normalize_weights self weight in
  let mid := spp_epoch sv weight' adc_ticks self in
  ekf_valid self' = true
  <-> 0 <= _ekf_running mid /\ (update_call sv weight' mid).1 = true.
Proof.
  intros Hsolve. cbv zeta. rewrite (solve_ekf_valid _ _ _ _ _ Hsolve).
  unfold update_succeeds. rewrite andb_true_iff, Z.leb_le. reflexivity.
Qed.

(** X12. While the filter is not running, an epoch that does not complete
    two consecutive valid point solutions does not touch the filter: it is
    neither reset nor updated, and stays not running. *)
Theorem filter_untouched_without_two_fixes sv weight adc_ticks self self' :
  solve sv weight adc_ticks self = Some (true, self') ->
  _ekf_running self = -1 ->
  spp_valid self = false \/ spp_valid self' = false ->
  _ekf self' = _ekf self /\ _ekf_running self' = -1 /\ ekf_valid self' = false.
Proof.
  intros Hsolve Hrun Hfix.
  rewrite (solve_spp_valid _ _ _ _ _ Hsolve) in Hfix.
  assert (Hboot : bootstraps sv (normalize_weights self weight) self = false)
    by (apply bootstraps_false_cases; tauto).
  pose proof (spp_epoch_ekf_running sv (normalize_weights self weight) adc_ticks self)
    as Hmid.
  rewrite Hboot, Hrun in Hmid.
  rewrite (solve_ekf_valid _ _ _ _ _ Hsolve).
  apply solve_nonempty in Hsolve as [-> _]. cbv zeta.
  split; [|split].
  - rewrite ekf_epoch_ekf, Hmid, spp_epoch_ekf, Hboot. reflexivity.
  - now apply ekf_epoch_not_running.
  - now apply update_succeeds_not_running.
Qed.


Lemma solve_ticks_ekf sv weight adc_ticks self self' :
  solve sv weight adc_ticks self = Some (true, self') ->
  ekf_valid self' = true ->
  _ticks_ekf self' = (adc_ticks, adc_ticks).
Proof.
  intros Hsolve Hekf.
  rewrite (solve_ekf_valid _ _ _ _ _ Hsolve) in Hekf.
  apply solve_nonempty in Hsolve as [-> _]. cbv zeta.
  now rewrite ekf_epoch_ticks_ekf, Hekf, spp_epoch_ticks_ekf.
Qed.

(** X14. Between two consecutive processed epochs of which the first left
    the filter valid, the filter is updated with the elapsed time from the
    tick of the first to the tick of the second. *)
Theorem elapsed_between_filter_epochs
    sv1 weight1 ticks1 self self1 sv2 weight2 ticks2 self2 :
  solve sv1 weight1 ticks1 self = Some (true, self1) ->
  ekf_valid self1 = true ->
  solve sv2 weight2 ticks2 self1 = Some (true, self2) ->
  _ekf self2
  = (ekf_update (_ekf self1) sv2 (normalize_weights self1 weight2)
       (dadc_ticks_sec self1 (ticks2, ticks1))).2.
Proof.
  intros Hsolve1 Hekf Hsolve2.
  pose proof (solve_ticks_ekf _ _ _ _ _ Hsolve1 Hekf) as Hticks.
  assert (Hrun : 0 <= _ekf_running self1).
  { unfold ekf_valid in Hekf. apply Z.leb_le in Hekf. lia. }
  assert (Hboot : bootstraps sv2 (normalize_weights self1 weight2) self1 = false)
    by (apply bootstraps_false_cases; right; right; lia).
  pose proof (spp_epoch_ekf_running sv2 (normalize_weights self1 weight2) ticks2 self1)
    as Hmid.
  rewrite Hboot in Hmid.
  apply solve_nonempty in Hsolve2 as [-> _]. cbv zeta.
  rewrite ekf_epoch_ekf_made by (rewrite Hmid; now apply Z.leb_le).
  rewrite update_call_eq, spp_epoch_ekf, spp_epoch_ticks_ekf, spp_epoch_fOsc, Hboot.
  now rewrite Hticks.
Qed.

(** X15. Whenever the filter is not running and this point solution and
    the previous one are valid, the filter is reset with the bootstrap state
    and covariance built from the point solver (the drift slot seeded with
    the oscillator correction of the two fixes times the filter's speed of
    light), and updated in the same call with the elapsed time [0 / _fOsc];
    the confidence afterwards is 1 or -1 with the outcome of that update.
    This is also how the filter starts again after it diverged. *)
Theorem bootstrap_when_not_running sv weight adc_ticks self self' :
  solve sv weight adc_ticks self = Some (true, self') ->
  _ekf_running self = -1 ->
  spp_valid self = true ->
  spp_valid self' = true ->
  let weight' := normalize_weights self weight in
  let drift :=
    (osc_corr_of_fixes (_spp self') (at0 (_ct_rx self')) (at1 (_ct_rx self'))
       (dadc_ticks_sec self' (_ticks_spp self')) * ekf_c (_ekf self))%float in
  let bootstrapped :=
    ekf_Reset (_ekf self) (bootstrap_state (spp_state (_spp self')) drift)
      (bootstrap_cov (spp_cov (_spp self'))) in
  let update := ekf_update bootstrapped sv weight' (0 / _fOsc self)%float in
  _ekf self' = update.2
  /\ _ekf_running self' = (if update.1 then 1 else -1)
  /\ ekf_valid self' = update.1.
Proof.
  intros Hsolve Hrun Hbefore Hspp. cbv zeta.
  rewrite (solve_spp_valid _ _ _ _ _ Hsolve) in Hspp.
  assert (Hboot : bootstraps sv (normalize_weights self weight) self = true)
    by now apply bootstraps_true.
  pose proof (spp_epoch_ekf_running sv (normalize_weights self weight) adc_ticks self)
    as Hmid.
  rewrite Hboot in Hmid.
  apply solve_nonempty in Hsolve as [-> _]. cbv zeta.
  destruct (ekf_epoch_untouched sv (normalize_weights self weight)
              (spp_epoch sv (normalize_weights self weight) adc_ticks self))
    as (_ & Hts & Hct & _ & Hsolver & HfOsc).
  destruct (ekf_epoch_running_bootstrapped sv (normalize_weights self weight) _ Hmid)
    as [Hrun' Hvalid'].
  rewrite Hrun', Hvalid'.
  rewrite ekf_epoch_ekf_made by now rewrite Hmid.
  rewrite update_call_eq.
  rewrite spp_epoch_ekf, spp_epoch_ticks_ekf, spp_epoch_fOsc, Hboot.
  rewrite dadc_ticks_same, uint64_to_double_0.
  unfold dadc_ticks_sec at 1 2 3.
  rewrite Hts, Hct, Hsolver, HfOsc.
  rewrite spp_epoch_osc_corr, spp_epoch_ticks_spp, spp_epoch_ct_rx, spp_epoch_spp,
    spp_epoch_fOsc, Hspp, Hbefore.
  split; [reflexivity|]. split; reflexivity.
Qed.

(** *** Invariants over every sequence of calls *)

(** A property that every call keeps holds after any sequence of calls. *)
Lemma solve_all_invariant (P : PosSolverImpl S E -> Prop) :
  (forall sv weight adc_ticks self b self',
      solve sv weight adc_ticks self = Some (b, self') -> P self -> P self') ->
  forall epochs self self',
    solve_all epochs self = Some self' -> P self -> P self'.
Proof.
  intros Hstep epochs. induction epochs as [|e rest IH]; intros self self'; cbn.
  - now intros [= <-].
  - destruct (solve (ep_sv e) (ep_weight e) (ep_ticks e) self) as [[b next]|] eqn:Hsolve;
      [|discriminate].
    intros Hrest HP. apply (IH next self' Hrest). exact (Hstep _ _ _ _ _ _ Hsolve HP).
Qed.

Lemma solve_confidence_observed sv weight adc_ticks self b self' :
  solve sv weight adc_ticks self = Some (b, self') ->
  _ekf_running self = -1 \/ 1 <= _ekf_running self <= 4 ->
  _ekf_running self' = -1 \/ 1 <= _ekf_running self' <= 4.
Proof.
  intros Hsolve Hself. apply solve_cases in Hsolve as [[-> ->]|[-> ->]]; [exact Hself|].
  rewrite ekf_epoch_ekf_running.
  unfold update_succeeds, update_fails. rewrite spp_epoch_ekf_running.
  destruct (bootstraps _ _ _); unfold bool_to_int.
  - cbn. destruct (update_call _ _ _).1; cbn; lia.
  - destruct (Z.leb_spec 0 (_ekf_running self)) as [Hr|Hr];
      destruct (update_call _ _ _).1; cbn [andb negb]; try lia.
    destruct (Z.ltb_spec (_ekf_running self) 4); lia.
Qed.

(** X16. Between calls the confidence counter is never 0: after any
    sequence of calls on a fresh object it is -1 or lies in 1..4, since the
    call that bootstraps the filter also updates it. *)
Theorem confidence_never_0_between_calls uere fOsc (yield : Y) epochs self :
  solve_all epochs (make uere fOsc yield) = Some self ->
  _ekf_running self = -1 \/ 1 <= _ekf_running self <= 4.
Proof.
  intros Hall.
  apply (solve_all_invariant
           (fun self => _ekf_running self = -1 \/ 1 <= _ekf_running self <= 4)
           solve_confidence_observed _ _ _ Hall).
  left. apply (make_not_running uere fOsc yield TNT.null2 []).
Qed.

Lemma solve_validity_sets_pos_valid sv weight adc_ticks self b self' :
  solve sv weight adc_ticks self = Some (b, self') ->
  validity_sets_pos_valid self -> validity_sets_pos_valid self'.
Proof.
  intros Hsolve (H0 & H1 & Hr).
  apply solve_cases in Hsolve as [[-> ->]|[-> ->]]; [now repeat split|].
  destruct (ekf_epoch_untouched sv (normalize_weights self weight)
              (spp_epoch sv (normalize_weights self weight) adc_ticks self))
    as (Hst & _ & _ & Hpv & _).
  unfold validity_sets_pos_valid.
  rewrite Hst, Hpv, spp_epoch_state_spp, spp_epoch_pos_valid, ekf_epoch_ekf_running.
  unfold update_succeeds, update_fails. rewrite spp_epoch_ekf_running.
  unfold bootstraps, at0, at1. cbn [fst snd].
  destruct (accepted sv (normalize_weights self weight) self) eqn:Hacc;
    rewrite ?orb_true_r, ?orb_false_r; [now repeat split|].
  cbn [andb]. split; [discriminate|]. split; [exact H0|].
  destruct (0 <=? _ekf_running self) eqn:Hle; cbn [andb].
  - destruct (update_call _ _ _).1; cbn [negb]; intros _; apply Hr;
      apply Z.leb_le in Hle; lia.
  - exact Hr.
Qed.

(** X17. After any sequence of calls on a fresh object, a valid point
    solution or a valid filter implies [pos_valid()]. *)
Theorem pos_valid_covers_validity uere fOsc (yield : Y) epochs self :
  solve_all epochs (make uere fOsc yield) = Some self ->
  (spp_valid self = true -> pos_valid self = true)
  /\ (ekf_valid self = true -> pos_valid self = true).
Proof.
  intros Hall.
  assert (Hinv : validity_sets_pos_valid self).
  { apply (solve_all_invariant validity_sets_pos_valid
             solve_validity_sets_pos_valid _ _ _ Hall).
    unfold validity_sets_pos_valid, make. cbn. repeat split; try discriminate.
    intros H. now contradiction H. }
  destruct Hinv as (H0 & _ & Hr). split; [exact H0|].
  unfold ekf_valid. intros Hekf. apply Hr. apply Z.leb_le in Hekf. lia.
Qed.

Lemma solve_pos_dim sv weight adc_ticks self b self' :
  solve sv weight adc_ticks self = Some (b, self') ->
  TNT.dim (_pos self) = 3%nat -> TNT.dim (_pos self') = 3%nat.
Proof.
  intros Hsolve Hdim. apply solve_cases in Hsolve as [[-> ->]|[-> ->]]; [exact Hdim|].
  rewrite ekf_epoch_pos.
  destruct (update_succeeds _ _ _); rewrite ?inject_dim, spp_epoch_pos;
    destruct (accepted _ _ _); rewrite ?inject_dim; exact Hdim.
Qed.

(** X18. The exported position has three components after any sequence of
    calls on a fresh object, whatever the dimension of the position that the
    point solver reports. *)
Theorem pos_has_three_components uere fOsc (yield : Y) epochs self :
  solve_all epochs (make uere fOsc yield) = Some self ->
  TNT.dim (pos self) = 3%nat.
Proof.
  intros Hall.
  apply (solve_all_invariant (fun self => TNT.dim (_pos self) = 3%nat)
           solve_pos_dim _ _ _ Hall).
  reflexivity.
Qed.

(** *** The confidence of a filter that keeps tracking *)

Lemma solve_keeps_tracking sv weight adc_ticks self self' :
  solve sv weight adc_ticks self = Some (true, self') ->
  ekf_valid self' = true ->
  -1 <= _ekf_running self <= 4 ->
  _ekf_running self' = Z.min (Z.max 0 (_ekf_running self) + 1) 4.
Proof.
  intros Hsolve Hekf Hself.
  rewrite (solve_ekf_valid _ _ _ _ _ Hsolve) in Hekf.
  apply solve_nonempty in Hsolve as [-> _]. cbv zeta.
  destruct (update_succeeds_true _ _ _ Hekf) as [Hmade _]. apply Z.leb_le in Hmade.
  rewrite ekf_epoch_running_success;
    [|apply spp_epoch_confidence; exact Hself|exact Hekf].
  rewrite spp_epoch_ekf_running in Hmade |- *.
  destruct (bootstraps sv (normalize_weights self weight) self) eqn:Hboot.
  - unfold bootstraps in Hboot. apply andb_true_iff in Hboot as [_ Hr].
    apply Z.eqb_eq in Hr. rewrite Hr. reflexivity.
  - rewrite Z.max_r by lia. reflexivity.
Qed.

Lemma keeps_tracking_confidence epochs : forall self,
  -1 <= _ekf_running self <= 4 ->
  keeps_tracking epochs self = true ->
  exists self',
    solve_all epochs self = Some self'
    /\ -1 <= _ekf_running self' <= 4
    /\ (epochs <> [] ->
        _ekf_running self'
        = Z.min (Z.max 0 (_ekf_running self) + Z.of_nat (length epochs)) 4).
Proof.
  induction epochs as [|e rest IH]; intros self Hself Hkeep.
  - exists self. split; [reflexivity|]. split; [exact Hself|]. intros H. now contradiction H.
  - cbn [keeps_tracking solve_all] in *.
    destruct (solve (ep_sv e) (ep_weight e) (ep_ticks e) self) as [[[] next]|] eqn:Hsolve;
      try discriminate.
    apply andb_true_iff in Hkeep as [Hekf Hrest].
    pose proof (solve_keeps_tracking _ _ _ _ _ Hsolve Hekf Hself) as Hnext.
    assert (Hnext_ok : -1 <= _ekf_running next <= 4) by lia.
    destruct (IH next Hnext_ok Hrest) as (self' & Hall & Hok & Hlen).
    exists self'. split; [exact Hall|]. split; [exact Hok|]. intros _.
    destruct rest as [|e' rest'].
    + cbn in Hall. injection Hall as <-. rewrite Hnext. cbn [length]. lia.
    + rewrite Hlen by discriminate. rewrite Hnext. cbn [length]. lia.
Qed.

(** X19. A filter that stays valid through [n >= 1] consecutive epochs has
    the confidence [min (max 0 c + n) 4] afterwards, for [c] the confidence
    before: it counts the successful updates from the bootstrap on, up to
    4. *)
Theorem confidence_after_tracking epochs self :
  -1 <= _ekf_running self <= 4 ->
  epochs <> [] ->
  keeps_tracking epochs self = true ->
  exists self',
    solve_all epochs self = Some self'
    /\ _ekf_running self'
       = Z.min (Z.max 0 (_ekf_running self) + Z.of_nat (length epochs)) 4.
Proof.
  intros Hself Hne Hkeep.
  destruct (keeps_tracking_confidence epochs self Hself Hkeep) as (self' & Hall & _ & Hlen).
  exists self'. split; [exact Hall|exact (Hlen Hne)].
Qed.

End MoreEpoch.

(** * The bootstrap state and covariance *)

Lemma below_4 (i : nat) : (i < 4)%nat -> i = 0%nat \/ i = 1%nat \/ i = 2%nat \/ i = 3%nat.
Proof. lia. Qed.

(** X20. The covariance the filter is reset with is 5 by 5; its top-left 4
    by 4 block is the point solver's covariance when that is 4 by 4 (and
    zero otherwise), the variance of the drift slot is 1 and the rest of
    the last row and column is zero. *)
Theorem bootstrap_cov_shape (cov : mat_type) :
  TNT.dim1 (bootstrap_cov cov) = 5%nat /\ TNT.dim2 (bootstrap_cov cov) = 5%nat
  /\ TNT.get2 (bootstrap_cov cov) 4 4 = 1%float
  /\ (forall i : nat, (i < 4)%nat ->
        TNT.get2 (bootstrap_cov cov) i 4 = 0%float
        /\ TNT.get2 (bootstrap_cov cov) 4 i = 0%float)
  /\ (forall i j : nat, (i < 4)%nat -> (j < 4)%nat ->
        TNT.get2 (bootstrap_cov cov) i j
        = if ((TNT.dim1 cov =? 4) && (TNT.dim2 cov =? 4))%nat
          then TNT.get2 cov i j else 0%float).
Proof.
  destruct cov as [d1 d2 els]. unfold bootstrap_cov, TNT.inject_sub2.
  cbn [TNT.dim1 TNT.dim2 TNT.fill2].
  change (0 <=? 3)%nat with true. change (3 <? 5)%nat with true.
  change (3 - 0 + 1)%nat with 4%nat. cbn [andb].
  destruct ((d1 =? 4)%nat && (d2 =? 4)%nat) eqn:Hdims.
  - apply andb_true_iff in Hdims as [Hd1 Hd2].
    apply Nat.eqb_eq in Hd1, Hd2. subst d1 d2.
    split; [reflexivity|]. split; [reflexivity|]. split; [reflexivity|].
    split.
    + intros i Hi. destruct (below_4 i Hi) as [-> | [-> | [-> | ->]]]; split; reflexivity.
    + intros i j Hi Hj.
      destruct (below_4 i Hi) as [-> | [-> | [-> | ->]]];
        destruct (below_4 j Hj) as [-> | [-> | [-> | ->]]]; reflexivity.
  - split; [reflexivity|]. split; [reflexivity|]. split; [reflexivity|].
    split;
      [intros i Hi; destruct (below_4 i Hi) as [-> | [-> | [-> | ->]]]; split; reflexivity
      |intros i j Hi Hj;
       destruct (below_4 i Hi) as [-> | [-> | [-> | ->]]];
       destruct (below_4 j Hj) as [-> | [-> | [-> | ->]]]; reflexivity].
Qed.

(** X21. The state the filter is reset with has five components: the four
    of the point solver's state when that has four (and zero otherwise),
    then the drift. *)
Theorem bootstrap_state_shape (state : vec_type) (drift : double) :
  TNT.dim (bootstrap_state state drift) = 5%nat
  /\ nth 4 (bootstrap_state state drift) 0%float = drift
  /\ (forall i : nat, (i < 4)%nat ->
        nth i (bootstrap_state state drift) 0%float
        = if (TNT.dim state =? 4)%nat then nth i state 0%float else 0%float).
Proof.
  unfold bootstrap_state, TNT.inject_sub1, TNT.dim, TNT.fill1.
  change (0 <=? 3)%nat with true. change (3 - 0 + 1)%nat with 4%nat.
  cbn [replicate length andb]. change (3 <? 5)%nat with true. cbn [andb].
  destruct (length state =? 4)%nat eqn:Hdim.
  - apply Nat.eqb_eq in Hdim.
    destruct state as [|a [|b [|c [|d [|? ?]]]]]; try discriminate.
    split; [reflexivity|]. split; [reflexivity|].
    intros i Hi. destruct (below_4 i Hi) as [-> | [-> | [-> | ->]]]; reflexivity.
  - split; [reflexivity|]. split; [reflexivity|].
    intros i Hi. destruct (below_4 i Hi) as [-> | [-> | [-> | ->]]]; reflexivity.
Qed.

(** * Further properties of elev_azim *)

Lemma g_lookup (calls : list (nat * double * double)) :
  forall (elevAzim : list ElevAzim) (found : option (double * double)) (i : nat),
    (i < length elevAzim)%nat ->
    elevAzim !! i
    = Some (match found with Some rad => to_degrees rad | None => ElevAzim_default end) ->
    fold_left g calls elevAzim !! i
    = Some (match fold_left
                    (fun found call =>
                       if (call.1.1 =? i)%nat then Some (call.1.2, call.2) else found)
                    calls found with
            | Some rad => to_degrees rad
            | None => ElevAzim_default
            end).
Proof.
  induction calls as [|[[k e] a] calls IH]; intros elevAzim found i Hi Hentry.
  - exact Hentry.
  - cbn [fold_left fst snd]. apply IH.
    + unfold g. now rewrite length_insert.
    + unfold g. destruct (Nat.eqb_spec k i) as [->|Hne].
      * now rewrite list_lookup_insert_eq.
      * now rewrite list_lookup_insert_ne.
Qed.

Section ElevAzim.

Context {Y S E : Type}.
Context {SPP : SinglePointPositionSolver Y S} {EKF : EKFPositionSolver Y E}.

(** X22. When a solution is valid, the entry of [elev_azim] for a column is
    the look angles of the last callback that the trusted solver made for
    that column, each divided by the double nearest to pi and multiplied by
    180, and the entry with both angles zero when it made none. *)
Theorem elev_azim_entry (self : PosSolverImpl S E) (sv : mat_type) (i : nat) :
  spp_valid self = true \/ ekf_valid self = true ->
  (i < TNT.dim2 sv)%nat ->
  elev_azim self sv !! i
  = Some (match last_call i (trusted_calls self sv) with
          | Some rad =>
              {| elev_deg := (rad.1 / 0x1.921fb54442d18p+1 * 180)%float;
                 azim_deg := (rad.2 / 0x1.921fb54442d18p+1 * 180)%float |}
          | None => {| elev_deg := 0%float; azim_deg := 0%float |}
          end).
Proof.
  intros Hvalid Hi.
  assert (Hdef : elev_azim self sv
                 = fold_left g (trusted_calls self sv)
                     (replicate (TNT.dim2 sv) ElevAzim_default)).
  { unfold elev_azim, trusted_calls.
    destruct (spp_valid self), (ekf_valid self); cbn; try reflexivity.
    destruct Hvalid; discriminate. }
  rewrite Hdef. unfold last_call.
  rewrite (g_lookup (trusted_calls self sv)
             (replicate (TNT.dim2 sv) ElevAzim_default) None i).
  - destruct (fold_left _ (trusted_calls self sv) None) as [rad|]; reflexivity.
  - now rewrite length_replicate.
  - now apply lookup_replicate_2.
Qed.

End ElevAzim.

(** * The further properties on the scripted solvers *)

Section MoreRuns.

Import Scripted.

Lemma elapsed_ticks_without_wrap_run :
  0 <= 2 ^ 48 + 3 <= 2 ^ 48 + 10 /\ 2 ^ 48 + 10 < 2 ^ 64
  /\ dadc_ticks (2 ^ 48 + 10, 2 ^ 48 + 3) = 2 ^ 48 + 10 - (2 ^ 48 + 3).
Proof.
  assert (H1 : 0 <= 2 ^ 48 + 3 <= 2 ^ 48 + 10) by (vm_compute; split; discriminate).
  assert (H2 : 2 ^ 48 + 10 < 2 ^ 64) by reflexivity.
  split; [exact H1|]. split; [exact H2|].
  exact (elapsed_ticks_without_wrap (2 ^ 48 + 10) (2 ^ 48 + 3) H1 H2).
Defined.

Lemma elapsed_ticks_mod_2_48_run :
  0 <= after_wrap < 2 ^ 48 /\ 0 <= before_wrap < 2 ^ 48
  /\ dadc_ticks (after_wrap, before_wrap) = (after_wrap - before_wrap) mod 2 ^ 48
  /\ 0 <= dadc_ticks (after_wrap, before_wrap) < 2 ^ 48.
Proof.
  assert (H1 : 0 <= after_wrap < 2 ^ 48) by (vm_compute; split; [discriminate|reflexivity]).
  assert (H2 : 0 <= before_wrap < 2 ^ 48) by (vm_compute; split; [discriminate|reflexivity]).
  split; [exact H1|]. split; [exact H2|].
  exact (elapsed_ticks_mod_2_48 after_wrap before_wrap H1 H2).
Defined.


Lemma elapsed_seconds_positive_iff_run :
  0 <= after_wrap < 2 ^ 48 /\ 0 <= before_wrap < 2 ^ 48
  /\ positive_finite (_fOsc fresh) = true
  /\ ((0 <? dadc_ticks_sec fresh (after_wrap, before_wrap))%float = true
      <-> after_wrap <> before_wrap).
Proof.
  assert (H1 : 0 <= after_wrap < 2 ^ 48) by (vm_compute; split; [discriminate|reflexivity]).
  assert (H2 : 0 <= before_wrap < 2 ^ 48) by (vm_compute; split; [discriminate|reflexivity]).
  assert (H3 : positive_finite (_fOsc fresh) = true) by (vm_compute; reflexivity).
  split; [exact H1|]. split; [exact H2|]. split; [exact H3|].
  exact (elapsed_seconds_positive_iff fresh after_wrap before_wrap H1 H2 H3).
Defined.

Lemma tick_count_converted_exactly_run :
  0 <= after_wrap < 2 ^ 48 /\ 0 <= before_wrap < 2 ^ 48 /\ after_wrap <> before_wrap
  /\ exists m e,
       Prim2SF (uint64_to_double (dadc_ticks (after_wrap, before_wrap)))
       = S754_finite false m e
       /\ e <= 0
       /\ Zpos m = dadc_ticks (after_wrap, before_wrap) * 2 ^ (- e).
Proof.
  assert (H1 : 0 <= after_wrap < 2 ^ 48) by (vm_compute; split; [discriminate|reflexivity]).
  assert (H2 : 0 <= before_wrap < 2 ^ 48) by (vm_compute; split; [discriminate|reflexivity]).
  assert (H3 : after_wrap <> before_wrap) by (vm_compute; discriminate).
  split; [exact H1|]. split; [exact H2|]. split; [exact H3|].
  exact (tick_count_converted_exactly after_wrap before_wrap H1 H2 H3).
Defined.

Lemma empty_batch_changes_nothing_run :
  TNT.dim2 sv_empty = 0%nat /\ TNT.dim (@nil double) = 0%nat
  /\ solve sv_empty [] 7 tracking = Some (false, tracking).
Proof.
  split; [reflexivity|]. split; [reflexivity|].
  exact (empty_batch_changes_nothing sv_empty [] 7 tracking eq_refl eq_refl).
Defined.

Lemma rejected_epoch_keeps_exports_run :
  solve sv_bad unit_weight 9 first_fix = Some (true, fix_then_none)
  /\ spp_valid fix_then_none = false /\ ekf_valid fix_then_none = false
  /\ llh fix_then_none = llh first_fix /\ t_rx fix_then_none = t_rx first_fix
  /\ osc_corr fix_then_none = osc_corr first_fix
  /\ pos fix_then_none = pos first_fix
  /\ pos_valid fix_then_none = pos_valid first_fix.
Proof.
  assert (H1 : solve sv_bad unit_weight 9 first_fix = Some (true, fix_then_none))
    by (vm_compute; reflexivity).
  assert (H2 : spp_valid fix_then_none = false) by (vm_compute; reflexivity).
  assert (H3 : ekf_valid fix_then_none = false) by (vm_compute; reflexivity).
  split; [exact H1|]. split; [exact H2|]. split; [exact H3|].
  exact (rejected_epoch_keeps_exports sv_bad unit_weight 9 first_fix fix_then_none
           H1 H2 H3).
Defined.

Lemma accepted_epoch_exports_fix_run :
  solve sv_good unit_weight 5 fresh = Some (true, first_fix)
  /\ spp_valid first_fix = true /\ ekf_valid first_fix = false
  /\ llh first_fix = spp_LLH (_spp first_fix)
  /\ t_rx first_fix = (spp_ct_rx (_spp first_fix) / spp_c (_spp first_fix))%float
  /\ pos first_fix = TNT.inject (pos fresh) (spp_pos (_spp first_fix))
  /\ pos_valid first_fix = true
  /\ (spp_valid fresh = false -> osc_corr first_fix = osc_corr fresh).
Proof.
  assert (H1 : solve sv_good unit_weight 5 fresh = Some (true, first_fix))
    by (vm_compute; reflexivity).
  assert (H2 : spp_valid first_fix = true) by (vm_compute; reflexivity).
  assert (H3 : ekf_valid first_fix = false) by (vm_compute; reflexivity).
  split; [exact H1|]. split; [exact H2|]. split; [exact H3|].
  exact (accepted_epoch_exports_fix sv_good unit_weight 5 fresh first_fix H1 H2 H3).
Defined.

Lemma osc_corr_from_two_fixes_run :
  solve sv_diverging unit_weight 9 first_fix = Some (true, fixes_without_filter)
  /\ spp_valid first_fix = true /\ spp_valid fixes_without_filter = true
  /\ ekf_valid fixes_without_filter = false
  /\ osc_corr fixes_without_filter
     = osc_corr_of_fixes (_spp fixes_without_filter)
         (at0 (_ct_rx fixes_without_filter)) (at1 (_ct_rx fixes_without_filter))
         (dadc_ticks_sec fixes_without_filter (_ticks_spp fixes_without_filter)).
Proof.
  assert (H1 : solve sv_diverging unit_weight 9 first_fix
               = Some (true, fixes_without_filter)) by (vm_compute; reflexivity).
  assert (H2 : spp_valid first_fix = true) by (vm_compute; reflexivity).
  assert (H3 : spp_valid fixes_without_filter = true) by (vm_compute; reflexivity).
  assert (H4 : ekf_valid fixes_without_filter = false) by (vm_compute; reflexivity).
  split; [exact H1|]. split; [exact H2|]. split; [exact H3|]. split; [exact H4|].
  exact (osc_corr_from_two_fixes sv_diverging unit_weight 9 first_fix
           fixes_without_filter H1 H2 H3 H4).
Defined.

Lemma ekf_valid_iff_update_succeeded_run :
  let weight' := normalize_weights first_fix unit_weight in
  let mid := spp_epoch sv_good weight' 9 first_fix in
  solve sv_good unit_weight 9 first_fix = Some (true, tracking)
  /\ (ekf_valid tracking = true
      <-> 0 <= _ekf_running mid /\ (update_call sv_good weight' mid).1 = true).
Proof.
  assert (H1 : solve sv_good unit_weight 9 first_fix = Some (true, tracking))
    by (vm_compute; reflexivity).
  split; [exact H1|].
  exact (ekf_valid_iff_update_succeeded sv_good unit_weight 9 first_fix tracking H1).
Defined.

Lemma filter_untouched_without_two_fixes_run :
  solve sv_good unit_weight 5 fresh = Some (true, first_fix)
  /\ _ekf_running fresh = -1
  /\ (spp_valid fresh = false \/ spp_valid first_fix = false)
  /\ _ekf first_fix = _ekf fresh /\ _ekf_running first_fix = -1
  /\ ekf_valid first_fix = false.
Proof.
  assert (H1 : solve sv_good unit_weight 5 fresh = Some (true, first_fix))
    by (vm_compute; reflexivity).
  assert (H2 : _ekf_running fresh = -1) by (vm_compute; reflexivity).
  assert (H3 : spp_valid fresh = false \/ spp_valid first_fix = false)
    by (left; vm_compute; reflexivity).
  split; [exact H1|]. split; [exact H2|]. split; [exact H3|].
  exact (filter_untouched_without_two_fixes sv_good unit_weight 5 fresh first_fix
           H1 H2 H3).
Defined.


Lemma elapsed_between_filter_epochs_run :
  solve sv_good unit_weight 9 first_fix = Some (true, tracking)
  /\ ekf_valid tracking = true
  /\ solve sv_good unit_weight 12 tracking = Some (true, tracking_on)
  /\ _ekf tracking_on
     = (ekf_update (_ekf tracking) sv_good (normalize_weights tracking unit_weight)
          (dadc_ticks_sec tracking (12, 9))).2.
Proof.
  assert (H1 : solve sv_good unit_weight 9 first_fix = Some (true, tracking))
    by (vm_compute; reflexivity).
  assert (H2 : ekf_valid tracking = true) by (vm_compute; reflexivity).
  assert (H3 : solve sv_good unit_weight 12 tracking = Some (true, tracking_on))
    by (vm_compute; reflexivity).
  split; [exact H1|]. split; [exact H2|]. split; [exact H3|].
  exact (elapsed_between_filter_epochs sv_good unit_weight 9 first_fix tracking
           sv_good unit_weight 12 tracking_on H1 H2 H3).
Defined.

Lemma bootstrap_when_not_running_run :
  let weight' := normalize_weights diverged unit_weight in
  let drift :=
    (osc_corr_of_fixes (_spp recovered) (at0 (_ct_rx recovered)) (at1 (_ct_rx recovered))
       (dadc_ticks_sec recovered (_ticks_spp recovered)) * ekf_c (_ekf diverged))%float in
  let bootstrapped :=
    ekf_Reset (_ekf diverged) (bootstrap_state (spp_state (_spp recovered)) drift)
      (bootstrap_cov (spp_cov (_spp recovered))) in
  let update := ekf_update bootstrapped sv_good weight' (0 / _fOsc diverged)%float in
  solve sv_good unit_weight 15 diverged = Some (true, recovered)
  /\ _ekf_running diverged = -1
  /\ spp_valid diverged = true /\ spp_valid recovered = true
  /\ _ekf recovered = update.2
  /\ _ekf_running recovered = (if update.1 then 1 else -1)
  /\ ekf_valid recovered = update.1.
Proof.
  assert (H1 : solve sv_good unit_weight 15 diverged = Some (true, recovered))
    by (vm_compute; reflexivity).
  assert (H2 : _ekf_running diverged = -1) by (vm_compute; reflexivity).
  assert (H3 : spp_valid diverged = true) by (vm_compute; reflexivity).
  assert (H4 : spp_valid recovered = true) by (vm_compute; reflexivity).
  split; [exact H1|]. split; [exact H2|]. split; [exact H3|]. split; [exact H4|].
  exact (bootstrap_when_not_running sv_good unit_weight 15 diverged recovered
           H1 H2 H3 H4).
Defined.

Lemma confidence_never_0_between_calls_run :
  solve_all [good 5; good 9] fresh = Some tracking
  /\ (_ekf_running tracking = -1 \/ 1 <= _ekf_running tracking <= 4).
Proof.
  assert (H1 : solve_all [good 5; good 9] fresh = Some tracking)
    by (vm_compute; reflexivity).
  split; [exact H1|].
  exact (confidence_never_0_between_calls 6%float 66666600%float tt
           [good 5; good 9] tracking H1).
Defined.

Lemma pos_valid_covers_validity_run :
  solve_all [good 5; good 9] fresh = Some tracking
  /\ (spp_valid tracking = true -> pos_valid tracking = true)
  /\ (ekf_valid tracking = true -> pos_valid tracking = true).
Proof.
  assert (H1 : solve_all [good 5; good 9] fresh = Some tracking)
    by (vm_compute; reflexivity).
  split; [exact H1|].
  exact (pos_valid_covers_validity 6%float 66666600%float tt
           [good 5; good 9] tracking H1).
Defined.

Lemma pos_has_three_components_run :
  solve_all [good 5; good 9] fresh = Some tracking
  /\ TNT.dim (pos tracking) = 3%nat.
Proof.
  assert (H1 : solve_all [good 5; good 9] fresh = Some tracking)
    by (vm_compute; reflexivity).
  split; [exact H1|].
  exact (pos_has_three_components 6%float 66666600%float tt
           [good 5; good 9] tracking H1).
Defined.

Lemma confidence_after_tracking_run :
  -1 <= _ekf_running first_fix <= 4
  /\ six_good <> []
  /\ keeps_tracking six_good first_fix = true
  /\ exists self',
       solve_all six_good first_fix = Some self'
       /\ _ekf_running self'
          = Z.min (Z.max 0 (_ekf_running first_fix) + Z.of_nat (length six_good)) 4.
Proof.
  assert (H1 : -1 <= _ekf_running first_fix <= 4)
    by (vm_compute; split; discriminate).
  assert (H2 : six_good <> []) by discriminate.
  assert (H3 : keeps_tracking six_good first_fix = true) by (vm_compute; reflexivity).
  split; [exact H1|]. split; [exact H2|]. split; [exact H3|].
  exact (confidence_after_tracking six_good first_fix H1 H2 H3).
Defined.

Lemma elev_azim_entry_run :
  (spp_valid first_fix = true \/ ekf_valid first_fix = true)
  /\ (1 < TNT.dim2 sv_two)%nat
  /\ last_call 1 (trusted_calls first_fix sv_two) = Some (2, 4)%float
  /\ elev_azim first_fix sv_two !! 1%nat
     = Some (match last_call 1 (trusted_calls first_fix sv_two) with
             | Some rad =>
                 {| elev_deg := (rad.1 / 0x1.921fb54442d18p+1 * 180)%float;
                    azim_deg := (rad.2 / 0x1.921fb54442d18p+1 * 180)%float |}
             | None => {| elev_deg := 0%float; azim_deg := 0%float |}
             end)
  /\ elev_azim first_fix sv_two !! 1%nat
     = Some {| elev_deg := 0x1.ca5dc1a63c1f8p+6%float;
               azim_deg := 0x1.ca5dc1a63c1f8p+7%float |}.
Proof.
  assert (H1 : spp_valid first_fix = true \/ ekf_valid first_fix = true)
    by (left; vm_compute; reflexivity).
  assert (H2 : (1 < TNT.dim2 sv_two)%nat) by (vm_compute; lia).
  assert (H3 : last_call 1 (trusted_calls first_fix sv_two) = Some (2, 4)%float)
    by (vm_compute; reflexivity).
  assert (H4 : elev_azim first_fix sv_two !! 1%nat
               = Some {| elev_deg := 0x1.ca5dc1a63c1f8p+6%float;
                         azim_deg := 0x1.ca5dc1a63c1f8p+7%float |})
    by (vm_compute; reflexivity).
  split; [exact H1|]. split; [exact H2|]. split; [exact H3|].
  split; [exact (elev_azim_entry first_fix sv_two 1 H1 H2)|exact H4].
Defined.

End MoreRuns.

(** * The elapsed seconds across a wraparound *)

Section WrappedElapsed.

Context {Y S E : Type}.
Context {SPP : SinglePointPositionSolver Y S} {EKF : EKFPositionSolver Y E}.

(** C7, as the code has it. For two 48-bit tick values with one wraparound
    (the newest below the previous) the elapsed tick count is
    [newest + 2^48 - previous] and the elapsed seconds are its double
    divided by the nominal frequency, whatever that is; they are above zero
    when the nominal frequency is a positive finite number. *)
Theorem wrapped_elapsed_seconds (self : PosSolverImpl S E) (newest previous : uint64_t) :
  0 <= newest < previous -> previous < 2 ^ 48 ->
  dadc_ticks (newest, previous) = newest + 2 ^ 48 - previous
  /\ dadc_ticks_sec self (newest, previous)
     = (uint64_to_double (newest + 2 ^ 48 - previous) / _fOsc self)%float
  /\ (positive_finite (_fOsc self) = true ->
      (0 <? dadc_ticks_sec self (newest, previous))%float = true).
Proof.
  intros Hlt Hprev. unfold dadc_ticks_sec.
  rewrite dadc_ticks_wrap by lia.
  split; [reflexivity|]. split; [reflexivity|].
  intros HfOsc. assert (2 ^ 48 < 2 ^ 63) by reflexivity.
  apply ticks_div_positive; [lia|exact HfOsc].
Qed.

End WrappedElapsed.

Section WrappedRuns.

Import Scripted.

Lemma wrapped_elapsed_seconds_run :
  0 <= after_wrap < before_wrap /\ before_wrap < 2 ^ 48
  /\ positive_finite (_fOsc fresh) = true
  /\ dadc_ticks (after_wrap, before_wrap) = after_wrap + 2 ^ 48 - before_wrap
  /\ dadc_ticks_sec fresh (after_wrap, before_wrap)
     = (uint64_to_double (after_wrap + 2 ^ 48 - before_wrap) / _fOsc fresh)%float
  /\ (0 <? dadc_ticks_sec fresh (after_wrap, before_wrap))%float = true
  /\ dadc_ticks_sec fresh (after_wrap, before_wrap) = (8 / 66666600)%float.
Proof.
  assert (H1 : 0 <= after_wrap < before_wrap)
    by (vm_compute; split; [discriminate|reflexivity]).
  assert (H2 : before_wrap < 2 ^ 48) by reflexivity.
  assert (H3 : positive_finite (_fOsc fresh) = true) by (vm_compute; reflexivity).
  assert (H4 : dadc_ticks_sec fresh (after_wrap, before_wrap) = (8 / 66666600)%float)
    by (vm_compute; reflexivity).
  destruct (wrapped_elapsed_seconds fresh after_wrap before_wrap H1 H2)
    as (Hticks & Hsec & Hpos).
  split; [exact H1|]. split; [exact H2|]. split; [exact H3|].
  split; [exact Hticks|]. split; [exact Hsec|]. split; [exact (Hpos H3)|exact H4].
Defined.

(** C7 fails as stated: across the same wraparound the elapsed seconds are
    below zero on an object made with a negative nominal frequency, and zero
    on one made with an infinite nominal frequency. *)
Lemma wrapped_elapsed_seconds_not_positive :
  0 <= after_wrap < before_wrap /\ before_wrap < 2 ^ 48
  /\ (0 <? dadc_ticks_sec fresh_negative_fOsc (after_wrap, before_wrap))%float = false
  /\ (dadc_ticks_sec fresh_negative_fOsc (after_wrap, before_wrap) <? 0)%float = true
  /\ dadc_ticks_sec fresh_infinite_fOsc (after_wrap, before_wrap) = 0%float.
Proof.
  split; [vm_compute; split; [discriminate|reflexivity]|].
  split; [reflexivity|]. split; [vm_compute; reflexivity|].
  split; vm_compute; reflexivity.
Qed.

End WrappedRuns.
